(** * SessionCam: the session/media store, the drag reorder, the merge player
      and the flag / trim workflows

    A shallow embedding of [services/db.ts], [services/preferences.ts] and of
    the event handlers of [CameraView], [SessionDetail] and [TrimView].

    Conventions of the embedding.
    - An IndexedDB object store with [keyPath: 'id'] is a finite map from the
      key to the stored record.  A [readwrite] transaction is atomic: the
      embedded operation returns the store after the whole transaction, or
      the store it started from when a request fails and the transaction
      aborts.
    - [Date.now()] and [crypto.randomUUID()] are read from the environment:
      the embedded functions take the values read as arguments.
    - Integral [number]s (timestamps, counters, positions in a list) are [Z];
      [number]s that hold seconds of media time or a zoom factor are
      rationals [Q]: the code only compares, copies and takes the minimum or
      maximum of them, which is exact on the finite doubles they stand for.
    - A React component is its state record; a handler is a function from
      the state (and the store) to the state after the handler's updates
      have been rendered. *)

From Stdlib Require Import ZArith QArith Qminmax Lqa.
From stdpp Require Import gmap strings list sorting.

Local Open Scope Z_scope.

(** ** JavaScript helpers *)

Module JS.

Section array_sort.
Context {A : Type} (compareFn : A → A → Z).

(** [x] goes in front of the first element it does not compare greater
    than; elements that compare equal keep their relative position. *)
Fixpoint sort_insert (x : A) (l : list A) : list A :=
  match l with
  | [] => [x]
  | y :: l' =>
      if compareFn x y <=? 0 then x :: y :: l' else y :: sort_insert x l'
  end.

(** [Array.prototype.sort(compareFn)], which is stable. *)
Definition sort (l : list A) : list A := foldr sort_insert [] l.
End array_sort.

(** Truthiness of an optional [number]: [undefined] and [0] are falsy. *)
Definition truthy (n : option Q) : bool :=
  match n with
  | Some q => negb (Qeq_bool q 0)
  | None => false
  end.

(** [a || b] on numbers. *)
Definition or_else (a b : Z) : Z := if a =? 0 then b else a.

(** [arr.splice(i, 1)] and [arr.splice(i, 0, x)]. *)
Definition splice_out {A} (i : nat) (l : list A) : list A :=
  take i l ++ drop (S i) l.
Definition splice_in {A} (i : nat) (x : A) (l : list A) : list A :=
  take i l ++ x :: drop i l.

End JS.

(** ** types.ts *)

Module Session.
Record t := mk {
  id : string;
  name : string;
  createdAt : Z;
  lastModified : Z;
  thumbnailUrl : option string;
  itemCount : Z
}.

(** [session.itemCount += 1; session.lastModified = now] *)
Definition bump_added (s : t) (now : Z) : t :=
  {| id := id s; name := name s; createdAt := createdAt s;
     lastModified := now; thumbnailUrl := thumbnailUrl s;
     itemCount := itemCount s + 1 |}.

(** [session.lastModified = now] *)
Definition touch (s : t) (now : Z) : t :=
  {| id := id s; name := name s; createdAt := createdAt s;
     lastModified := now; thumbnailUrl := thumbnailUrl s;
     itemCount := itemCount s |}.
End Session.

Inductive MediaType := photo | video.

Record Blob := { blob_type : string; blob_bytes : list Byte.byte }.

Record CropRect := { crop_x : Q; crop_y : Q; crop_width : Q; crop_height : Q }.

Module MediaItem.
Record t := mk {
  id : string;
  sessionId : string;
  type : MediaType;
  blob : Blob;
  createdAt : Z;
  duration : option Q;
  trimNeeded : option bool;
  trimEndTime : option Q;
  order : Z;
  crop : option CropRect
}.

(** [{ ...item, order: o }], also [item.order = o] *)
Definition with_order (it : t) (o : Z) : t :=
  {| id := id it; sessionId := sessionId it; type := type it;
     blob := blob it; createdAt := createdAt it; duration := duration it;
     trimNeeded := trimNeeded it; trimEndTime := trimEndTime it;
     order := o; crop := crop it |}.
End MediaItem.

(** ** IndexedDB object stores and indexes *)

Inductive DOMException := ConstraintError.

Inductive outcome (A : Type) :=
  | Resolved (a : A)
  | Rejected (e : DOMException).
Arguments Resolved {A} a.
Arguments Rejected {A} e.

Module IDB.
Section object_store.
Context {V : Type}.

Section keyed.
Context (keyPath : V → string).

(** [store.put(v)]: insert or overwrite under the record's own key. *)
Definition put (v : V) (st : gmap string V) : gmap string V :=
  <[keyPath v := v]> st.

(** [store.add(v)]: as [put], but the request fails when the key is
    taken. *)
Definition add (v : V) (st : gmap string V) : option (gmap string V) :=
  match st !! keyPath v with
  | Some _ => None
  | None => Some (<[keyPath v := v]> st)
  end.
End keyed.

Definition key_compare (a b : string * V) : Z :=
  match String.compare a.1 b.1 with
  | Lt => -1
  | Eq => 0
  | Gt => 1
  end.

(** The records of a store, in ascending key order. *)
Definition entries (st : gmap string V) : list (string * V) :=
  JS.sort key_compare (map_to_list st).

(** [store.getAll()] *)
Definition getAll (st : gmap string V) : list V := (entries st).*2.

Section index.
Context (indexKey : V → string).

(** The records an index holds under one index key, in ascending order
    of their primary key. *)
Definition index_entries (k : string) (st : gmap string V)
  : list (string * V) :=
  filter (λ kv, indexKey kv.2 = k) (entries st).

(** [index.getAll(k)], [index.getAllKeys(k)], [index.count(k)] *)
Definition index_getAll (k : string) (st : gmap string V) : list V :=
  (index_entries k st).*2.
Definition index_getAllKeys (k : string) (st : gmap string V)
  : list string :=
  (index_entries k st).*1.
Definition index_count (k : string) (st : gmap string V) : nat :=
  length (index_entries k st).
End index.
End object_store.
End IDB.

(** ** services/db.ts *)

Record DB := {
  sessions : gmap string Session.t;   (* STORE_SESSIONS, keyPath 'id' *)
  media : gmap string MediaItem.t     (* STORE_MEDIA, keyPath 'id', index 'sessionId' *)
}.

Module Db.

Definition empty : DB := {| sessions := ∅; media := ∅ |}.

Definition createSession (db : DB) (name : string) (uuid : string) (now : Z)
  : outcome Session.t * DB :=
  let session :=
    {| Session.id := uuid; Session.name := name; Session.createdAt := now;
       Session.lastModified := now; Session.thumbnailUrl := None;
       Session.itemCount := 0 |} in
  match IDB.add Session.id session (sessions db) with
  | Some sessions' =>
      (Resolved session, {| sessions := sessions'; media := media db |})
  | None => (Rejected ConstraintError, db)
  end.

Definition getSessions (db : DB) : list Session.t :=
  JS.sort (λ a b, Session.lastModified b - Session.lastModified a)
          (IDB.getAll (sessions db)).

Definition deleteSession (db : DB) (id : string) : outcome unit * DB :=
  let sessions' := delete id (sessions db) in
  let keys := IDB.index_getAllKeys MediaItem.sessionId id (media db) in
  let media' := foldl (λ st key, delete key st) (media db) keys in
  (Resolved tt, {| sessions := sessions'; media := media' |}).

Definition addMediaItem (db : DB) (item : MediaItem.t) (now : Z)
  : outcome unit * DB :=
  let count :=
    IDB.index_count MediaItem.sessionId (MediaItem.sessionId item) (media db) in
  let item' := MediaItem.with_order item (Z.of_nat count) in
  let sessionReq := sessions db !! MediaItem.sessionId item in
  match IDB.add MediaItem.id item' (media db) with
  | None => (Rejected ConstraintError, db)
  | Some media' =>
      let sessions' :=
        match sessionReq with
        | Some session =>
            IDB.put Session.id (Session.bump_added session now) (sessions db)
        | None => sessions db
        end in
      (Resolved tt, {| sessions := sessions'; media := media' |})
  end.

(** [(a.order ?? 0) - (b.order ?? 0) || a.createdAt - b.createdAt];
    [order] is a [number] in [types.ts], so [?? 0] leaves it as it is. *)
Definition compareMedia (a b : MediaItem.t) : Z :=
  JS.or_else (MediaItem.order a - MediaItem.order b)
             (MediaItem.createdAt a - MediaItem.createdAt b).

Definition getMediaForSession (db : DB) (sessionId : string)
  : list MediaItem.t :=
  JS.sort compareMedia
          (IDB.index_getAll MediaItem.sessionId sessionId (media db)).

Definition getMediaItem (db : DB) (id : string) : option MediaItem.t :=
  media db !! id.

Definition updateMediaItem (db : DB) (item : MediaItem.t) (now : Z)
  : outcome unit * DB :=
  let media' := IDB.put MediaItem.id item (media db) in
  let sessions' :=
    match sessions db !! MediaItem.sessionId item with
    | Some session => IDB.put Session.id (Session.touch session now) (sessions db)
    | None => sessions db
    end in
  (Resolved tt, {| sessions := sessions'; media := media' |}).

Definition updateMediaItems (db : DB) (items : list MediaItem.t)
  : outcome unit * DB :=
  let media' := foldl (λ st item, IDB.put MediaItem.id item st) (media db) items in
  (Resolved tt, {| sessions := sessions db; media := media' |}).

End Db.

(** ** services/preferences.ts *)

Module Preferences.

Definition KEY_SKIP_FLAG_PROMPT : string := "sessioncam_skip_flag_prompt".

(** [localStorage.getItem(KEY) === 'true'] *)
Definition getShouldSkipFlagPrompt (localStorage : gmap string string) : bool :=
  bool_decide (localStorage !! KEY_SKIP_FLAG_PROMPT = Some "true").

Definition setShouldSkipFlagPrompt (localStorage : gmap string string)
    (shouldSkip : bool) : gmap string string :=
  <[KEY_SKIP_FLAG_PROMPT := if shouldSkip then "true" else "false"]> localStorage.

End Preferences.

(** What the handlers of a component act on besides the component's own
    state: the database and the browser's local storage. *)
Record World := {
  db : DB;
  localStorage : gmap string string
}.

(** ** CameraView: saving a recording and the flag workflow *)

Module CameraView.

Record State := {
  sessionId : string;                 (* prop *)
  recordingTime : Z;
  showFlagModal : bool;
  pendingFlaggedBlob : option Blob;
  dontRemindFlag : bool;
  navigatedToTrim : option string     (* last argument of onNavigateToTrim *)
}.

Definition set_modal (st : State) (show : bool) (pending : option Blob) : State :=
  {| sessionId := sessionId st; recordingTime := recordingTime st;
     showFlagModal := show; pendingFlaggedBlob := pending;
     dontRemindFlag := dontRemindFlag st;
     navigatedToTrim := navigatedToTrim st |}.

Definition navigate (st : State) (mediaId : string) : State :=
  {| sessionId := sessionId st; recordingTime := recordingTime st;
     showFlagModal := showFlagModal st;
     pendingFlaggedBlob := pendingFlaggedBlob st;
     dontRemindFlag := dontRemindFlag st;
     navigatedToTrim := Some mediaId |}.

(** What the environment hands to one call of [saveMedia]: the UUID drawn
    and the two clock readings (the item's [createdAt], and the reading
    inside [addMediaItem]). *)
Record Env := { uuid : string; now_created : Z; now_stored : Z }.

(** Returns the new id, or [None] for [null] when the store rejects. *)
Definition saveMedia (st : State) (w : World) (e : Env)
    (blob : Blob) (type : MediaType) (flagged : bool)
  : option string * World :=
  let item :=
    {| MediaItem.id := uuid e;
       MediaItem.sessionId := sessionId st;
       MediaItem.type := type;
       MediaItem.blob := blob;
       MediaItem.createdAt := now_created e;
       MediaItem.duration :=
         Some (match type with
               | video => inject_Z (recordingTime st)
               | photo => 0%Q
               end);
       MediaItem.trimNeeded := Some flagged;
       MediaItem.trimEndTime := None;
       MediaItem.order := 0;
       MediaItem.crop := None |} in
  match Db.addMediaItem (db w) item (now_stored e) with
  | (Resolved _, db') =>
      (Some (uuid e), {| db := db'; localStorage := localStorage w |})
  | (Rejected _, _) => (None, w)
  end.

Definition handleFlaggedWorkflow (st : State) (w : World) (e : Env)
    (blob : Blob) : State * World :=
  let shouldSkip := Preferences.getShouldSkipFlagPrompt (localStorage w) in
  if shouldSkip then
    (st, (saveMedia st w e blob video true).2)
  else
    (set_modal st true (Some blob), w).

Definition handleModalFixNow (st : State) (w : World) (e : Env)
  : State * World :=
  match pendingFlaggedBlob st with
  | None => (st, w)
  | Some pending =>
      let '(mediaId, w') := saveMedia st w e pending video true in
      let st' := set_modal st false (pendingFlaggedBlob st) in
      (match mediaId with
       | Some mid => navigate st' mid
       | None => st'
       end, w')
  end.

Definition handleModalJustFlag (st : State) (w : World) (e : Env)
  : State * World :=
  match pendingFlaggedBlob st with
  | None => (st, w)
  | Some pending =>
      let w1 :=
        if dontRemindFlag st then
          {| db := db w;
             localStorage :=
               Preferences.setShouldSkipFlagPrompt (localStorage w) true |}
        else w in
      let w2 := (saveMedia st w1 e pending video true).2 in
      (set_modal st false None, w2)
  end.

(** The [onstop] handler installed by [finishRecording isFlagged], run on
    the recorded blob. *)
Definition onstop (isFlagged : bool) (st : State) (w : World) (e : Env)
    (blob : Blob) : State * World :=
  if isFlagged then handleFlaggedWorkflow st w e blob
  else (st, (saveMedia st w e blob video false).2).

End CameraView.

(** ** TrimView: saving a trim / crop *)

Module TrimView.

Record State := {
  item : option MediaItem.t;
  endTime : Q;
  crop : CropRect;
  showConfirm : bool;
  saved : bool                       (* onSave() was called *)
}.

(** [{ ...item, trimNeeded: false, trimEndTime: endTime, duration: endTime, crop }] *)
Definition updated (it : MediaItem.t) (endTime : Q) (crop : CropRect)
  : MediaItem.t :=
  {| MediaItem.id := MediaItem.id it;
     MediaItem.sessionId := MediaItem.sessionId it;
     MediaItem.type := MediaItem.type it;
     MediaItem.blob := MediaItem.blob it;
     MediaItem.createdAt := MediaItem.createdAt it;
     MediaItem.duration := Some endTime;
     MediaItem.trimNeeded := Some false;
     MediaItem.trimEndTime := Some endTime;
     MediaItem.order := MediaItem.order it;
     MediaItem.crop := Some crop |}.

(** The effect of [load] in the mount effect: only a video is taken. *)
Definition load (d : DB) (mediaId : string) (st : State) : State :=
  match Db.getMediaItem d mediaId with
  | Some i =>
      match MediaItem.type i with
      | video =>
          {| item := Some i; endTime := endTime st;
             crop := match MediaItem.crop i with
                     | Some c => c
                     | None => crop st
                     end;
             showConfirm := showConfirm st; saved := saved st |}
      | photo => st
      end
  | None => st
  end.

Definition performSave (st : State) (d : DB) (now : Z) : State * DB :=
  match item st with
  | Some it =>
      let d' := (Db.updateMediaItem d (updated it (endTime st) (crop st)) now).2 in
      ({| item := item st; endTime := endTime st; crop := crop st;
          showConfirm := false; saved := true |}, d')
  | None => (st, d)
  end.

End TrimView.

(** ** SessionDetail: drag reorder and the merge player *)

Module SessionDetail.

Record State := {
  sessionId : string;                     (* prop *)
  media : list MediaItem.t;
  draggedIndex : option nat;
  isMerging : bool;
  mergeQueue : list MediaItem.t;
  currentMergeIndex : nat
}.

Definition set_drag (st : State) (m : list MediaItem.t) (d : option nat) : State :=
  {| sessionId := sessionId st; media := m; draggedIndex := d;
     isMerging := isMerging st; mergeQueue := mergeQueue st;
     currentMergeIndex := currentMergeIndex st |}.

Definition set_merge (st : State) (merging : bool) (queue : list MediaItem.t)
    (index : nat) : State :=
  {| sessionId := sessionId st; media := media st;
     draggedIndex := draggedIndex st;
     isMerging := merging; mergeQueue := queue;
     currentMergeIndex := index |}.

(** The part of [loadData] that fills [media]. *)
Definition loadData (st : State) (d : DB) : State :=
  set_drag st (Db.getMediaForSession d (sessionId st)) (draggedIndex st).

Definition handleDragStart (st : State) (index : nat) : State :=
  set_drag st (media st) (Some index).

(** [None] when the dragged index names no element of [media]: the handler
    would then put [undefined] into the list, which the rendered list
    (whose rows supply both indices) never asks for. *)
Definition handleDragOver (st : State) (index : nat) : option State :=
  match draggedIndex st with
  | None => Some st
  | Some dragged =>
      if bool_decide (dragged = index) then Some st
      else
        match media st !! dragged with
        | Some draggedItem =>
            let newMedia :=
              JS.splice_in index draggedItem (JS.splice_out dragged (media st)) in
            Some (set_drag st newMedia (Some index))
        | None => None
        end
  end.

(** [media.map((item, index) => ({ ...item, order: index }))] *)
Definition updates (m : list MediaItem.t) : list MediaItem.t :=
  imap (λ index item, MediaItem.with_order item (Z.of_nat index)) m.

Definition handleDragEnd (st : State) (d : DB) : State * (outcome unit * DB) :=
  (set_drag st (media st) None, Db.updateMediaItems d (updates (media st))).

Definition is_video (m : MediaItem.t) : bool :=
  match MediaItem.type m with video => true | photo => false end.

Definition handleMerge (st : State) : State :=
  let videos := filter (λ m, is_video m = true) (media st) in
  match videos with
  | [] => st                          (* alert("No videos to merge.") *)
  | _ => set_merge st true videos 0
  end.

Definition playNextInQueue (st : State) : State :=
  if bool_decide (Z.of_nat (currentMergeIndex st)
                  < Z.of_nat (length (mergeQueue st)) - 1)
  then set_merge st (isMerging st) (mergeQueue st) (S (currentMergeIndex st))
  else set_merge st false (mergeQueue st) (currentMergeIndex st).

(** [currentTime] is [mergeVideoRef.current?.currentTime]: [None] when the
    ref is [null]. *)
Definition handleMergeTimeUpdate (st : State) (currentTime : option Q) : State :=
  match currentTime, mergeQueue st !! currentMergeIndex st with
  | Some t, Some currentItem =>
      if JS.truthy (MediaItem.trimEndTime currentItem) then
        match MediaItem.trimEndTime currentItem with
        | Some e => if Qle_bool e t then playNextInQueue st else st
        | None => st
        end
      else st
  | _, _ => st
  end.

(** The clip the merge player shows: the [<video>] exists only while
    [isMerging && mergeQueue.length > 0], is keyed by the clip's id, and so
    is a fresh auto-playing element (position 0) whenever the index moves.
    The handlers keep [currentMergeIndex] inside the queue; were it outside,
    rendering would fail, and no element is shown here either. *)
Definition shown (st : State) : option MediaItem.t :=
  if isMerging st then mergeQueue st !! currentMergeIndex st else None.

(** Events of the merge player's [<video>] element. *)
Inductive VideoEvent :=
  | TimeUpdate (currentTime : Q)      (* onTimeUpdate *)
  | Ended.                            (* onEnded *)

(** An event is delivered only while the element is rendered. *)
Definition dispatch (st : State) (ev : VideoEvent) : State :=
  match shown st with
  | None => st
  | Some _ =>
      match ev with
      | TimeUpdate t => handleMergeTimeUpdate st (Some t)
      | Ended => playNextInQueue st
      end
  end.

(** The states of the sequencer as the component's state shows them. *)
Inductive Phase :=
  | Playing (i : nat)
  | Stopped.

Definition phase (st : State) : Phase :=
  match shown st with
  | Some _ => Playing (currentMergeIndex st)
  | None => Stopped
  end.

Definition playing_at (st : State) (i : nat) : bool :=
  match shown st with
  | Some _ => bool_decide (currentMergeIndex st = i)
  | None => false
  end.

(** *** The playback surface

    A model of the browser's [<video>] element for a clip whose media runs
    for [natural] seconds: it reports its position every [tick] seconds,
    reports the position [natural] when it gets there, and then signals
    [ended].  [play] drives the sequencer with these events and records,
    for each clip shown, its index in the queue and the position at which
    the player left it. *)
Fixpoint play (fuel : nat) (natural : MediaItem.t → Q) (tick : Q)
    (st : State) (pos : Q) : list (nat * Q) * State :=
  match fuel with
  | O => ([], st)
  | S fuel' =>
      match shown st with
      | None => ([], st)
      | Some clip =>
          let i := currentMergeIndex st in
          let next := Qred (pos + tick) in
          if Qle_bool (natural clip) next then
            (* the media's end is reached *)
            let st1 := dispatch st (TimeUpdate (natural clip)) in
            let st2 :=
              if playing_at st1 i
              then dispatch st1 Ended else st1 in
            if playing_at st2 i then ([], st2)
            else
              let '(log, st') := play fuel' natural tick st2 0 in
              ((i, natural clip) :: log, st')
          else
            let st1 := dispatch st (TimeUpdate next) in
            if playing_at st1 i
            then play fuel' natural tick st1 next
            else
              let '(log, st') := play fuel' natural tick st1 0 in
              ((i, next) :: log, st')
      end
  end.

End SessionDetail.

(** ** Properties the statements below are phrased with *)

(** Every record is filed under its own [id], as [keyPath: 'id'] makes it. *)
Definition keyed_by_id (d : DB) : Prop :=
  (∀ k s, sessions d !! k = Some s → Session.id s = k) ∧
  (∀ k m, media d !! k = Some m → MediaItem.id m = k).

(** The [order] values of the items that [getMediaForSession] returns for a
    session are 0, 1, ..., n-1, each once. *)
Definition gap_free (d : DB) (sid : string) : Prop :=
  MediaItem.order <$> Db.getMediaForSession d sid
  ≡ₚ Z.of_nat <$> seq 0 (length (Db.getMediaForSession d sid)).

(** The record [addMediaItem] stores for [item]. *)
Definition appended (d : DB) (item : MediaItem.t) : MediaItem.t :=
  MediaItem.with_order item
    (Z.of_nat (length (Db.getMediaForSession d (MediaItem.sessionId item)))).

(** A list held by [SessionDetail] names exactly the stored items of the
    session, in some arrangement. *)
Definition arranges (d : DB) (sid : string) (m : list MediaItem.t) : Prop :=
  MediaItem.id <$> m ≡ₚ MediaItem.id <$> Db.getMediaForSession d sid ∧
  Forall (λ it, MediaItem.sessionId it = sid) m.

(** The writes the application performs on the store: the three that create,
    delete or reorder media items, and besides them the creation of a
    session and the save of the trim editor. *)
Inductive MediaOp :=
  | OpAddMediaItem (item : MediaItem.t) (now : Z)
  | OpDeleteSession (id : string)
  | OpDragEnd (st : SessionDetail.State)
  | OpCreateSession (name uuid : string) (now : Z)
  | OpPerformSave (st : TrimView.State) (now : Z).

Definition run_op (d : DB) (op : MediaOp) : DB :=
  match op with
  | OpAddMediaItem item now => (Db.addMediaItem d item now).2
  | OpDeleteSession id => (Db.deleteSession d id).2
  | OpDragEnd st => (SessionDetail.handleDragEnd st d).2.2
  | OpCreateSession name uuid now => (Db.createSession d name uuid now).2
  | OpPerformSave st now => (TrimView.performSave st d now).2
  end.

(** The components run their writes on what they read from the store while
    mounted: the drag reorder on a list that names the session's items as
    they are stored, the trim editor on the item as it is stored. *)
Definition op_ready (d : DB) (op : MediaOp) : Prop :=
  match op with
  | OpDragEnd st =>
      arranges d (SessionDetail.sessionId st) (SessionDetail.media st)
  | OpPerformSave st _ =>
      match TrimView.item st with
      | Some it => media d !! MediaItem.id it = Some it
      | None => True
      end
  | _ => True
  end.

(** What each write does to the listings of [getMediaForSession].
    [addMediaItem] of an item whose id is new stores it with [order] n, the
    number of items its session listed so far, and the listing of a session
    numbered without gaps grows by that record at its tail; when the id is
    taken the store stays as it was.  [deleteSession] empties the listing of
    the session.  The drag reorder makes the session list the dragged list,
    row by row, each item with [order] equal to its index.  In each case
    every other session lists the records it listed before.
    [createSession] leaves the media store alone, and the trim editor's save
    leaves every [order] as it was. *)
Definition op_effect (d : DB) (op : MediaOp) : Prop :=
  let d' := run_op d op in
  match op with
  | OpAddMediaItem item _ =>
      let sid := MediaItem.sessionId item in
      let n := Z.of_nat (length (Db.getMediaForSession d sid)) in
      (media d !! MediaItem.id item = None →
       Db.getMediaItem d' (MediaItem.id item)
       = Some (MediaItem.with_order item n)
       ∧ (gap_free d sid →
          Db.getMediaForSession d' sid
          = Db.getMediaForSession d sid ++ [MediaItem.with_order item n]))
      ∧ (is_Some (media d !! MediaItem.id item) → d' = d)
      ∧ (∀ sid', sid' ≠ sid →
           Db.getMediaForSession d' sid' ≡ₚ Db.getMediaForSession d sid')
  | OpDeleteSession id =>
      Db.getMediaForSession d' id = []
      ∧ (∀ sid', sid' ≠ id →
           Db.getMediaForSession d' sid' ≡ₚ Db.getMediaForSession d sid')
  | OpDragEnd st =>
      let sid := SessionDetail.sessionId st in
      Db.getMediaForSession d' sid
      = SessionDetail.updates (SessionDetail.media st)
      ∧ MediaItem.id <$> Db.getMediaForSession d' sid
        = MediaItem.id <$> SessionDetail.media st
      ∧ (∀ (index : nat) it,
           Db.getMediaForSession d' sid !! index = Some it →
           MediaItem.order it = Z.of_nat index)
      ∧ (∀ sid', sid' ≠ sid →
           Db.getMediaForSession d' sid' ≡ₚ Db.getMediaForSession d sid')
  | OpCreateSession _ _ _ => media d' = media d
  | OpPerformSave _ _ =>
      ∀ sid', MediaItem.order <$> Db.getMediaForSession d' sid'
              ≡ₚ MediaItem.order <$> Db.getMediaForSession d sid'
  end.

(** The stores the application can build from the empty one. *)
Inductive reachable : DB → Prop :=
  | reachable_empty : reachable Db.empty
  | reachable_step d op :
      reachable d → op_ready d op → reachable (run_op d op).

(** ** CameraView: the recorder, the zoom and the photo *)

Module CameraControls.

(** The refs and state [finishRecording] reads: [mediaRecorderRef.current]
    (present or [null]), [isRecording] and [recordingStartTimeRef.current]. *)
Record Recording := {
  hasRecorder : bool;
  isRecording : bool;
  recordingStartTime : Z
}.

Definition stopped (r : Recording) : Recording :=
  {| hasRecorder := hasRecorder r; isRecording := false;
     recordingStartTime := recordingStartTime r |}.

(** [finishRecording isFlagged] at clock reading [now].  A recording of less
    than 500 ms is stopped without an [onstop] handler and so is dropped;
    otherwise the handler is installed and runs, once the recorder has
    stopped, on the blob assembled from the recorded chunks. *)
Definition finishRecording (isFlagged : bool) (r : Recording)
    (st : CameraView.State) (w : World) (e : CameraView.Env) (now : Z)
    (blob : Blob) : Recording * (CameraView.State * World) :=
  if hasRecorder r && isRecording r then
    let duration := now - recordingStartTime r in
    if duration <? 500 then (stopped r, (st, w))
    else (stopped r, CameraView.onstop isFlagged st w e blob)
  else (r, (st, w)).

Definition stopRecording := finishRecording false.
Definition stopRecordingFlagged := finishRecording true.

(** [setZoom val], with [minZoom] and [maxZoom] as the track reported them:
    the new [zoomLevel]. *)
Definition setZoom (minZoom maxZoom val : Q) : Q :=
  let cap := Qmin maxZoom 5 in
  Qmax minZoom (Qmin cap val).

(** [takePhoto]: the blob of the canvas is saved as an unflagged photo. *)
Definition takePhoto (st : CameraView.State) (w : World) (e : CameraView.Env)
    (blob : Blob) : option string * World :=
  CameraView.saveMedia st w e blob photo false.

End CameraControls.

(** ** SettingsView *)

Module SettingsView.

Record State := { skipPrompt : bool }.

(** The mount effect. *)
Definition mount (localStorage : gmap string string) : State :=
  {| skipPrompt := Preferences.getShouldSkipFlagPrompt localStorage |}.

Definition handleToggle (localStorage : gmap string string) (checked : bool)
  : State * gmap string string :=
  ({| skipPrompt := checked |},
   Preferences.setShouldSkipFlagPrompt localStorage checked).

End SettingsView.

(** ** SessionList *)

Module SessionList.

Record State := {
  sessions : list Session.t;
  isCreating : bool
}.

Definition loadSessions (st : State) (d : DB) : State :=
  {| sessions := Db.getSessions d; isCreating := isCreating st |}.

(** [name] is the "Session <date>" string built from the clock. *)
Definition handleCreate (st : State) (d : DB) (name uuid : string) (now : Z)
  : State * DB :=
  match Db.createSession d name uuid now with
  | (Resolved _, d') =>
      ({| sessions := Db.getSessions d'; isCreating := false |}, d')
  | (Rejected _, d') =>                (* alert("Could not create session") *)
      ({| sessions := sessions st; isCreating := false |}, d')
  end.

(** [confirmed] is the answer to the [confirm] dialog. *)
Definition handleDelete (st : State) (d : DB) (id : string) (confirmed : bool)
  : State * DB :=
  if confirmed then
    let d' := (Db.deleteSession d id).2 in
    (loadSessions st d', d')
  else (st, d).

End SessionList.

(** ** The video element of the previews *)

Record VideoElement := {
  currentTime : Q;
  paused : bool
}.

Module Preview.

(** [handlePreviewTimeUpdate] of [SessionDetail], on [videoRef.current] and
    [previewItem]: the element after the handler. *)
Definition handlePreviewTimeUpdate (video : option VideoElement)
    (previewItem : option MediaItem.t) : option VideoElement :=
  match video, previewItem with
  | Some v, Some item =>
      if JS.truthy (MediaItem.trimEndTime item) then
        match MediaItem.trimEndTime item with
        | Some e =>
            if Qle_bool e (currentTime v)
            then Some {| currentTime := e; paused := true |}
            else Some v
        | None => Some v
        end
      else Some v
  | _, _ => video
  end.

(** What a click on a row of [SessionDetail] opens. *)
Inductive Opened :=
  | OpenTrim (mediaId : string)
  | OpenPreview (item : MediaItem.t).

Definition handleMediaClick (item : MediaItem.t) : Opened :=
  match MediaItem.trimNeeded item, MediaItem.type item with
  | Some true, video => OpenTrim (MediaItem.id item)
  | _, _ => OpenPreview item
  end.

End Preview.

(** ** TrimView: playback against the trim point *)

Module TrimEditor.

(** [dragStartRef.current] *)
Record DragStart := {
  start_x : Q;
  start_y : Q;
  start_crop : CropRect;
  action : string
}.

(** The state of [TrimView] beyond what saving reads, and the element behind
    [videoRef] ([None] when the ref is [null]). *)
Record State := {
  view : TrimView.State;
  duration : Q;
  shownTime : Q;                       (* the [currentTime] state *)
  isPlaying : bool;
  video : option VideoElement;
  isDraggingCrop : bool;
  dragStartRef : option DragStart
}.

Definition with_endTime (v : TrimView.State) (endTime : Q) : TrimView.State :=
  {| TrimView.item := TrimView.item v; TrimView.endTime := endTime;
     TrimView.crop := TrimView.crop v;
     TrimView.showConfirm := TrimView.showConfirm v;
     TrimView.saved := TrimView.saved v |}.

Definition set_view (st : State) (v : TrimView.State) : State :=
  {| view := v; duration := duration st; shownTime := shownTime st;
     isPlaying := isPlaying st; video := video st;
     isDraggingCrop := isDraggingCrop st; dragStartRef := dragStartRef st |}.

Definition set_playback (st : State) (t : Q) (playing : bool)
    (v : option VideoElement) : State :=
  {| view := view st; duration := duration st; shownTime := t;
     isPlaying := playing; video := v;
     isDraggingCrop := isDraggingCrop st; dragStartRef := dragStartRef st |}.

(** [item?.trimEndTime || d] *)
Definition trim_or (item : option MediaItem.t) (d : Q) : Q :=
  match item with
  | Some it =>
      match MediaItem.trimEndTime it with
      | Some e => if JS.truthy (Some e) then e else d
      | None => d
      end
  | None => d
  end.

(** [d] is [videoRef.current.duration]. *)
Definition handleLoadedMetadata (st : State) (d : Q) : State :=
  match video st with
  | Some _ =>
      {| view := with_endTime (view st) (trim_or (TrimView.item (view st)) d);
         duration := d; shownTime := shownTime st; isPlaying := isPlaying st;
         video := video st; isDraggingCrop := isDraggingCrop st;
         dragStartRef := dragStartRef st |}
  | None => st
  end.

Definition handleTimeUpdate (st : State) : State :=
  match video st with
  | Some v =>
      let t := currentTime v in
      if Qle_bool (TrimView.endTime (view st)) t && isPlaying st then
        set_playback st t false
          (Some {| currentTime := TrimView.endTime (view st); paused := true |})
      else set_playback st t (isPlaying st) (Some v)
  | None => st
  end.

Definition togglePlay (st : State) : State :=
  match video st with
  | Some v =>
      if isPlaying st then
        set_playback st (shownTime st) false
          (Some {| currentTime := currentTime v; paused := true |})
      else
        let t :=
          if Qle_bool (TrimView.endTime (view st)) (currentTime v)
          then 0%Q else currentTime v in
        set_playback st (shownTime st) true
          (Some {| currentTime := t; paused := false |})
  | None => st
  end.

Definition handleSliderChange (st : State) (val : Q) : State :=
  let st1 := set_view st (with_endTime (view st) val) in
  match video st with
  | Some v =>
      set_playback st1 (shownTime st) false
        (Some {| currentTime := val; paused := paused v |})
  | None => st1
  end.

Definition fullFrame : CropRect :=
  {| crop_x := 0; crop_y := 0; crop_width := 1; crop_height := 1 |}.

(** The editor as it mounts: full frame, nothing loaded, not playing. *)
Definition initial (v : option VideoElement) : State :=
  {| view := {| TrimView.item := None; TrimView.endTime := 0;
                TrimView.crop := fullFrame; TrimView.showConfirm := false;
                TrimView.saved := false |};
     duration := 0; shownTime := 0; isPlaying := false; video := v;
     isDraggingCrop := false; dragStartRef := None |}.

End TrimEditor.

(** ** App: the view shown *)

Module App.

Inductive Mode := ModeVideo | ModePhoto.

Inductive ViewState :=
  | home
  | session (sessionId : string)
  | camera (sessionId : string) (initialMode : Mode)
  | trim (sessionId mediaId : string)
  | settings.

Definition goHome (view : ViewState) : ViewState := home.
Definition selectSession (view : ViewState) (sessionId : string) : ViewState :=
  session sessionId.
Definition openCamera (view : ViewState) (sessionId : string) (m : Mode)
  : ViewState := camera sessionId m.
Definition openTrim (view : ViewState) (mediaId sessionId : string)
  : ViewState := trim sessionId mediaId.
Definition openSettings (view : ViewState) : ViewState := settings.
Definition closeCamera (view : ViewState) : ViewState :=
  match view with
  | camera sessionId _ => session sessionId
  | _ => view
  end.
Definition closeTrim (view : ViewState) : ViewState :=
  match view with
  | trim sessionId _ => session sessionId
  | _ => view
  end.

(** The callbacks the rendered view can invoke. *)
Inductive Action :=
  | SelectSession (sessionId : string)   (* SessionList.onSelectSession *)
  | OpenSettings                         (* SessionList.onOpenSettings *)
  | Back                                 (* onBack of settings and session *)
  | OpenCamera (m : Mode)                (* SessionDetail.onOpenCamera *)
  | OpenTrim (mediaId : string)          (* onOpenTrim / onNavigateToTrim *)
  | Close.                               (* CameraView.onClose, TrimView.onBack / onSave *)

(** The callback as [App] wires it to the view shown; an action the view
    shown does not offer leaves the view. *)
Definition step (view : ViewState) (a : Action) : ViewState :=
  match view, a with
  | home, SelectSession sid => selectSession view sid
  | home, OpenSettings => openSettings view
  | settings, Back => goHome view
  | session _, Back => goHome view
  | session sid, OpenCamera m => openCamera view sid m
  | session sid, OpenTrim mediaId => openTrim view mediaId sid
  | camera _ _, Close => closeCamera view
  | camera sid _, OpenTrim mediaId => openTrim view mediaId sid
  | trim _ _, Close => closeTrim view
  | _, _ => view
  end.

(** The session a view belongs to. *)
Definition session_of (view : ViewState) : option string :=
  match view with
  | session sid | camera sid _ | trim sid _ => Some sid
  | home | settings => None
  end.

End App.

(** ** Consistency of the session aggregate *)

(** Every session's [itemCount] is the number of items stored for it, and
    every stored item belongs to a stored session. *)
Definition counted (d : DB) : Prop :=
  ∀ k S, sessions d !! k = Some S →
         Session.itemCount S = Z.of_nat (length (Db.getMediaForSession d k)).

Definition owned (d : DB) : Prop :=
  ∀ k v, media d !! k = Some v → is_Some (sessions d !! MediaItem.sessionId v).

Definition consistent (d : DB) : Prop :=
  keyed_by_id d ∧ counted d ∧ owned d.

(** An add is for a session of the store, as the camera's is while its
    session lasts; the other writes are as [op_ready] has them. *)
Definition op_owned (d : DB) (op : MediaOp) : Prop :=
  op_ready d op ∧
  match op with
  | OpAddMediaItem item _ => is_Some (sessions d !! MediaItem.sessionId item)
  | _ => True
  end.

(** The stores built from the empty one by such writes. *)
Inductive built : DB → Prop :=
  | built_empty : built Db.empty
  | built_step d op : built d → op_owned d op → built (run_op d op).

(** The item [saveMedia] builds before it hands it to [addMediaItem]. *)
Definition captured (st : CameraView.State) (e : CameraView.Env) (blob : Blob)
    (type : MediaType) (flagged : bool) : MediaItem.t :=
  {| MediaItem.id := CameraView.uuid e;
     MediaItem.sessionId := CameraView.sessionId st;
     MediaItem.type := type;
     MediaItem.blob := blob;
     MediaItem.createdAt := CameraView.now_created e;
     MediaItem.duration :=
       Some (match type with
             | video => inject_Z (CameraView.recordingTime st)
             | photo => 0%Q
             end);
     MediaItem.trimNeeded := Some flagged;
     MediaItem.trimEndTime := None;
     MediaItem.order := 0;
     MediaItem.crop := None |}.

(** ** A worked store: the scenarios of the specification *)

Module Scenario.

Definition webm : Blob := {| blob_type := "video/webm"; blob_bytes := [] |}.

(** A freshly recorded, unflagged clip of [seconds] seconds, as [saveMedia]
    builds it. *)
Definition clip (id sid : string) (seconds created : Z) : MediaItem.t :=
  {| MediaItem.id := id; MediaItem.sessionId := sid;
     MediaItem.type := video; MediaItem.blob := webm;
     MediaItem.createdAt := created;
     MediaItem.duration := Some (inject_Z seconds);
     MediaItem.trimNeeded := Some false; MediaItem.trimEndTime := None;
     MediaItem.order := 0; MediaItem.crop := None |}.

Definition with_trimEndTime (it : MediaItem.t) (e : Q) : MediaItem.t :=
  {| MediaItem.id := MediaItem.id it;
     MediaItem.sessionId := MediaItem.sessionId it;
     MediaItem.type := MediaItem.type it; MediaItem.blob := MediaItem.blob it;
     MediaItem.createdAt := MediaItem.createdAt it;
     MediaItem.duration := MediaItem.duration it;
     MediaItem.trimNeeded := MediaItem.trimNeeded it;
     MediaItem.trimEndTime := Some e;
     MediaItem.order := MediaItem.order it; MediaItem.crop := MediaItem.crop it |}.

(** Scenario A: session "S1" with three clips of 5, 3 and 4 seconds. *)
Definition db0 : DB := (Db.createSession Db.empty "S1" "s1" 100).2.
Definition db1 : DB := (Db.addMediaItem db0 (clip "m-7f" "s1" 5 110) 110).2.
Definition db2 : DB := (Db.addMediaItem db1 (clip "m-2a" "s1" 3 120) 120).2.
Definition dbA : DB := (Db.addMediaItem db2 (clip "m-9c" "s1" 4 130) 130).2.

Definition item0 : MediaItem.t := MediaItem.with_order (clip "m-7f" "s1" 5 110) 0.
Definition item1 : MediaItem.t := MediaItem.with_order (clip "m-2a" "s1" 3 120) 1.
Definition item2 : MediaItem.t := MediaItem.with_order (clip "m-9c" "s1" 4 130) 2.

(** The detail view of "S1", before [loadData]. *)
Definition detail0 : SessionDetail.State :=
  {| SessionDetail.sessionId := "s1"; SessionDetail.media := [];
     SessionDetail.draggedIndex := None; SessionDetail.isMerging := false;
     SessionDetail.mergeQueue := []; SessionDetail.currentMergeIndex := 0 |}.

(** Scenario B: the middle clip trimmed to 1.5 seconds, then merge. *)
Definition dbB : DB := (Db.updateMediaItem dbA (with_trimEndTime item1 (3 # 2)) 140).2.
Definition merging : SessionDetail.State :=
  SessionDetail.handleMerge (SessionDetail.loadData detail0 dbB).

(** The media of a clip that was never saved from the trim editor runs for
    the recorded [duration]. *)
Definition natural (it : MediaItem.t) : Q := default 0%Q (MediaItem.duration it).

(** Scenario D: the last row dragged to the top. *)
Definition dragged : option SessionDetail.State :=
  SessionDetail.handleDragOver
    (SessionDetail.handleDragStart (SessionDetail.loadData detail0 dbA) 2) 0.

Definition reordered : SessionDetail.State := default detail0 dragged.

(** A detail view left with a stale list that shows only the middle clip. *)
Definition stale : SessionDetail.State :=
  SessionDetail.set_drag detail0 [item1] None.

(** An item recorded for a session that is not in the store. *)
Definition ghost : MediaItem.t := clip "m-00" "gone" 2 50.

Definition orphaned : DB := (Db.addMediaItem Db.empty ghost 60).2.

(** A merge queue whose only clip was saved with the trim slider at 0. *)
Definition zero_trim : SessionDetail.State :=
  SessionDetail.set_merge detail0 true [with_trimEndTime item0 0] 0.

(** The camera of "S1" after 3 seconds of recording, with the prompt
    suppressed in the preferences. *)
Definition camera : CameraView.State :=
  {| CameraView.sessionId := "s1"; CameraView.recordingTime := 3;
     CameraView.showFlagModal := false; CameraView.pendingFlaggedBlob := None;
     CameraView.dontRemindFlag := false; CameraView.navigatedToTrim := None |}.
Definition suppressed : World :=
  {| db := dbA;
     localStorage := Preferences.setShouldSkipFlagPrompt ∅ true |}.
Definition env : CameraView.Env :=
  {| CameraView.uuid := "m-e4"; CameraView.now_created := 150;
     CameraView.now_stored := 151 |}.

(** The trim editor opened on the middle clip, slider at 1.5 seconds and a
    crop of the left half. *)
Definition editor : TrimView.State :=
  {| TrimView.item := Some item1; TrimView.endTime := 3 # 2;
     TrimView.crop := {| crop_x := 0; crop_y := 0;
                         crop_width := 1 # 2; crop_height := 1 |};
     TrimView.showConfirm := true; TrimView.saved := false |}.

End Scenario.

(** ** Further concrete states *)

Module Examples.

(** The store of scenario A with nothing in the local storage. *)
Definition asking : World := {| db := Scenario.dbA; localStorage := ∅ |}.

(** The camera of "S1" with the flag modal open on a recording and "don't
    remind me" ticked. *)
Definition prompted : CameraView.State :=
  {| CameraView.sessionId := "s1"; CameraView.recordingTime := 3;
     CameraView.showFlagModal := true;
     CameraView.pendingFlaggedBlob := Some Scenario.webm;
     CameraView.dontRemindFlag := true; CameraView.navigatedToTrim := None |}.

(** The trim editor on the middle clip of scenario A, its video element at
    2 seconds and playing. *)
Definition trimming : TrimEditor.State :=
  {| TrimEditor.view := Scenario.editor; TrimEditor.duration := 3;
     TrimEditor.shownTime := 0; TrimEditor.isPlaying := true;
     TrimEditor.video := Some {| currentTime := 2; paused := false |};
     TrimEditor.isDraggingCrop := false; TrimEditor.dragStartRef := None |}.

(** A recorder that has been recording since the clock read 200. *)
Definition recording : CameraControls.Recording :=
  {| CameraControls.hasRecorder := true; CameraControls.isRecording := true;
     CameraControls.recordingStartTime := 200 |}.

(** The id and the clock readings of a save made when the clock reads
    3200, three seconds into that recording. *)
Definition later : CameraView.Env :=
  {| CameraView.uuid := "m-e4"; CameraView.now_created := 3200;
     CameraView.now_stored := 3201 |}.

(** The camera of "S1" within the first second of a recording. *)
Definition started : CameraView.State :=
  {| CameraView.sessionId := "s1"; CameraView.recordingTime := 0;
     CameraView.showFlagModal := false; CameraView.pendingFlaggedBlob := None;
     CameraView.dontRemindFlag := false; CameraView.navigatedToTrim := None |}.

(** From the detail view of "s1": camera, fix-now to the editor, save, the
    camera again. *)
Definition tour : list App.Action :=
  [App.OpenCamera App.ModeVideo; App.OpenTrim "m-e4"; App.Close;
   App.OpenCamera App.ModePhoto].

End Examples.

(** * Lemmas *)

(** ** [Array.prototype.sort] *)

Section sort_facts.
Context {A : Type} (compareFn : A → A → Z).

Lemma sort_insert_perm x l : JS.sort_insert compareFn x l ≡ₚ x :: l.
Proof.
  induction l as [|y l IH]; simpl; [done|].
  destruct (compareFn x y <=? 0); [done|].
  rewrite IH. apply Permutation_swap.
Qed.

Lemma sort_perm l : JS.sort compareFn l ≡ₚ l.
Proof.
  induction l as [|x l IH]; simpl; [done|].
  rewrite sort_insert_perm. by f_equiv.
Qed.

Lemma elem_of_sort x l : x ∈ JS.sort compareFn l ↔ x ∈ l.
Proof. by rewrite sort_perm. Qed.

Lemma length_sort l : length (JS.sort compareFn l) = length l.
Proof. by rewrite sort_perm. Qed.

Lemma sort_nil_inv l : JS.sort compareFn l = [] → l = [].
Proof.
  intros E. apply Permutation_nil. by rewrite <- (sort_perm l), E.
Qed.

(** A comparator that orders its arguments consistently. *)
Hypothesis compare_total : ∀ a b, 0 < compareFn a b → compareFn b a <= 0.
Hypothesis compare_trans :
  ∀ a b c, compareFn a b <= 0 → compareFn b c <= 0 → compareFn a c <= 0.

Let le (a b : A) : Prop := compareFn a b <= 0.

Lemma sort_insert_sorted x l :
  StronglySorted le l → StronglySorted le (JS.sort_insert compareFn x l).
Proof.
  induction 1 as [|y l Hl IH Hy]; simpl.
  { repeat constructor. }
  destruct (Z.leb_spec (compareFn x y) 0) as [Hxy|Hxy].
  - constructor; [by constructor|].
    constructor; [done|].
    eapply Forall_impl; [exact Hy|]. intros z Hz. by eapply compare_trans.
  - constructor; [done|].
    rewrite sort_insert_perm. constructor; [|done].
    by apply compare_total.
Qed.

Lemma sort_sorted l : StronglySorted le (JS.sort compareFn l).
Proof.
  induction l as [|x l IH]; simpl; [constructor|].
  by apply sort_insert_sorted.
Qed.
End sort_facts.

(** ** Object stores and indexes *)

Section idb_facts.
Context {V : Type}.
Implicit Types (st : gmap string V) (k : string) (v : V).

Lemma entries_perm st : IDB.entries st ≡ₚ map_to_list st.
Proof. apply sort_perm. Qed.

Lemma elem_of_entries st k v : (k, v) ∈ IDB.entries st ↔ st !! k = Some v.
Proof. by rewrite entries_perm, elem_of_map_to_list. Qed.

Lemma NoDup_entries st : NoDup (IDB.entries st).
Proof. rewrite entries_perm. apply NoDup_map_to_list. Qed.

Lemma NoDup_entries_keys st : NoDup (IDB.entries st).*1.
Proof. rewrite entries_perm. apply NoDup_fst_map_to_list. Qed.

Lemma elem_of_getAll st v : v ∈ IDB.getAll st ↔ ∃ k, st !! k = Some v.
Proof.
  unfold IDB.getAll. rewrite list_elem_of_fmap. split.
  - intros [[k v'] [-> Hin]]. exists k. by apply elem_of_entries.
  - intros [k Hk]. exists (k, v). split; [done|]. by apply elem_of_entries.
Qed.

Context (indexKey : V → string).

Lemma elem_of_index_entries key st k v :
  (k, v) ∈ IDB.index_entries indexKey key st
  ↔ st !! k = Some v ∧ indexKey v = key.
Proof.
  unfold IDB.index_entries.
  rewrite list_elem_of_filter, elem_of_entries. simpl. tauto.
Qed.

Lemma NoDup_index_entries key st : NoDup (IDB.index_entries indexKey key st).
Proof. apply NoDup_filter, NoDup_entries. Qed.

Lemma NoDup_index_getAllKeys key st :
  NoDup (IDB.index_getAllKeys indexKey key st).
Proof.
  unfold IDB.index_getAllKeys, IDB.index_entries.
  pose proof (NoDup_entries_keys st) as Hnd.
  induction (IDB.entries st) as [|[k v] l IH]; simpl in *; [constructor|].
  apply NoDup_cons in Hnd as [Hk Hl].
  rewrite filter_cons. simpl. case_decide; simpl; [|by apply IH].
  apply NoDup_cons. split; [|by apply IH].
  intros Hin. apply Hk.
  apply list_elem_of_fmap in Hin as [[k' v'] [-> Hin]].
  apply list_elem_of_filter in Hin as [_ Hin].
  apply list_elem_of_fmap. by exists (k', v').
Qed.

Lemma elem_of_index_getAllKeys key st k :
  k ∈ IDB.index_getAllKeys indexKey key st
  ↔ ∃ v, st !! k = Some v ∧ indexKey v = key.
Proof.
  unfold IDB.index_getAllKeys. rewrite list_elem_of_fmap. split.
  - intros [[k' v] [-> Hin]]. exists v. by apply elem_of_index_entries.
  - intros [v Hv]. exists (k, v). split; [done|].
    by apply elem_of_index_entries.
Qed.

Lemma elem_of_index_getAll key st v :
  v ∈ IDB.index_getAll indexKey key st
  ↔ ∃ k, st !! k = Some v ∧ indexKey v = key.
Proof.
  unfold IDB.index_getAll. rewrite list_elem_of_fmap. split.
  - intros [[k v'] [-> Hin]]. exists k. by apply elem_of_index_entries.
  - intros [k Hk]. exists (k, v). split; [done|].
    by apply elem_of_index_entries.
Qed.

(** Two stores that file the same records under an index key hold them in
    the same number and, up to arrangement, as the same list. *)
Lemma index_entries_perm key st l :
  NoDup l →
  (∀ k v, (k, v) ∈ l ↔ st !! k = Some v ∧ indexKey v = key) →
  IDB.index_entries indexKey key st ≡ₚ l.
Proof.
  intros Hnd Hl. apply NoDup_Permutation; [apply NoDup_index_entries|done|].
  intros [k v]. by rewrite elem_of_index_entries, Hl.
Qed.

Lemma index_entries_insert_fresh key st v k :
  st !! k = None →
  IDB.index_entries indexKey key (<[k := v]> st)
  ≡ₚ (if decide (indexKey v = key) then [(k, v)] else [])
     ++ IDB.index_entries indexKey key st.
Proof.
  intros Hfresh. apply index_entries_perm.
  - assert ((k, v) ∉ IDB.index_entries indexKey key st) as Hnot.
    { rewrite elem_of_index_entries. intros [Hk _]. congruence. }
    case_decide; simpl; [|apply NoDup_index_entries].
    apply NoDup_cons. split; [done|apply NoDup_index_entries].
  - intros k' v'. rewrite elem_of_app, elem_of_index_entries.
    destruct (decide (k = k')) as [<-|Hne].
    + rewrite lookup_insert_eq, Hfresh. case_decide.
      * rewrite list_elem_of_singleton.
        split; [intros [[= <-]|[[=] _]]; done|intros [[= <-] _]; by left].
      * rewrite elem_of_nil.
        split; [intros [[]|[[=] _]]|intros [[= <-] ?]; done].
    + rewrite lookup_insert_ne by done. case_decide.
      * rewrite list_elem_of_singleton.
        split; [intros [[= ? ?]|?]; done|intros ?; by right].
      * rewrite elem_of_nil. split; [intros [[]|?]; done|intros ?; by right].
Qed.

(** Deleting the keys an index lists under [key] leaves exactly the records
    filed under other index keys. *)
Lemma lookup_delete_keys (keys : list string) st k :
  foldl (λ s key, delete key s) st keys !! k
  = if decide (k ∈ keys) then None else st !! k.
Proof.
  revert st. induction keys as [|key keys IH]; intros st; simpl.
  { destruct (decide (k ∈ [])) as [H|_]; [by apply elem_of_nil in H|done]. }
  rewrite IH.
  destruct (decide (k ∈ keys)) as [Hin|Hnin];
    destruct (decide (k ∈ key :: keys)) as [Hin'|Hnin']; try done.
  - exfalso. apply Hnin'. by right.
  - apply elem_of_cons in Hin' as [->|?]; [|done]. apply lookup_delete_eq.
  - apply lookup_delete_ne. intros ->. apply Hnin'. by left.
Qed.
End idb_facts.

(** ** services/db.ts: reads *)

Lemma compareMedia_total a b :
  0 < Db.compareMedia a b → Db.compareMedia b a <= 0.
Proof.
  unfold Db.compareMedia, JS.or_else.
  destruct (Z.eqb_spec (MediaItem.order a - MediaItem.order b) 0);
    destruct (Z.eqb_spec (MediaItem.order b - MediaItem.order a) 0); lia.
Qed.

Lemma compareMedia_trans a b c :
  Db.compareMedia a b <= 0 → Db.compareMedia b c <= 0 →
  Db.compareMedia a c <= 0.
Proof.
  unfold Db.compareMedia, JS.or_else.
  destruct (Z.eqb_spec (MediaItem.order a - MediaItem.order b) 0);
    destruct (Z.eqb_spec (MediaItem.order b - MediaItem.order c) 0);
    destruct (Z.eqb_spec (MediaItem.order a - MediaItem.order c) 0); lia.
Qed.

Lemma compareMedia_le_order a b :
  Db.compareMedia a b <= 0 → MediaItem.order a <= MediaItem.order b.
Proof.
  unfold Db.compareMedia, JS.or_else.
  destruct (Z.eqb_spec (MediaItem.order a - MediaItem.order b) 0); lia.
Qed.

Lemma compareMedia_lt_order a b :
  MediaItem.order a < MediaItem.order b → Db.compareMedia a b <= 0.
Proof.
  unfold Db.compareMedia, JS.or_else.
  destruct (Z.eqb_spec (MediaItem.order a - MediaItem.order b) 0); lia.
Qed.

Lemma getMediaForSession_perm d sid :
  Db.getMediaForSession d sid
  ≡ₚ IDB.index_getAll MediaItem.sessionId sid (media d).
Proof. apply sort_perm. Qed.

Lemma getMediaForSession_sorted d sid :
  StronglySorted (λ a b, Db.compareMedia a b <= 0) (Db.getMediaForSession d sid).
Proof.
  apply sort_sorted; [apply compareMedia_total|apply compareMedia_trans].
Qed.

Lemma elem_of_getMediaForSession d sid v :
  v ∈ Db.getMediaForSession d sid
  ↔ ∃ k, media d !! k = Some v ∧ MediaItem.sessionId v = sid.
Proof. by rewrite getMediaForSession_perm, elem_of_index_getAll. Qed.

Lemma length_getMediaForSession d sid :
  length (Db.getMediaForSession d sid)
  = IDB.index_count MediaItem.sessionId sid (media d).
Proof.
  rewrite getMediaForSession_perm. unfold IDB.index_getAll, IDB.index_count.
  apply length_fmap.
Qed.

(** What a session's listing is, up to arrangement, depends only on which
    records the store files under the session. *)
Lemma getMediaForSession_perm_of_lookup d d' sid :
  (∀ k v, MediaItem.sessionId v = sid →
          media d' !! k = Some v ↔ media d !! k = Some v) →
  Db.getMediaForSession d' sid ≡ₚ Db.getMediaForSession d sid.
Proof.
  intros Hsame. rewrite !getMediaForSession_perm. unfold IDB.index_getAll.
  f_equiv. apply index_entries_perm; [apply NoDup_index_entries|].
  intros k v. rewrite elem_of_index_entries.
  split; intros [Hk Hv]; (split; [|done]); by apply Hsame.
Qed.

Lemma gap_free_perm d d' sid :
  Db.getMediaForSession d' sid ≡ₚ Db.getMediaForSession d sid →
  gap_free d sid → gap_free d' sid.
Proof. unfold gap_free. intros E Hd. by rewrite E. Qed.

Lemma getSessions_elem d s :
  s ∈ Db.getSessions d ↔ ∃ k, sessions d !! k = Some s.
Proof. unfold Db.getSessions. by rewrite elem_of_sort, elem_of_getAll. Qed.

(** ** [deleteSession] *)

Lemma deleteSession_media_lookup d id k :
  media (Db.deleteSession d id).2 !! k
  = match media d !! k with
    | Some v => if decide (MediaItem.sessionId v = id) then None else Some v
    | None => None
    end.
Proof.
  simpl. rewrite lookup_delete_keys.
  destruct (media d !! k) as [v|] eqn:Hk.
  - destruct (decide (MediaItem.sessionId v = id)) as [Hv|Hv].
    + rewrite decide_True; [done|]. apply elem_of_index_getAllKeys. eauto.
    + rewrite decide_False; [done|].
      rewrite elem_of_index_getAllKeys. intros (v' & Hk' & Hv'). congruence.
  - by case_decide.
Qed.

Lemma deleteSession_getMediaForSession d id :
  Db.getMediaForSession (Db.deleteSession d id).2 id = [].
Proof.
  destruct (Db.getMediaForSession (Db.deleteSession d id).2 id) as [|v l] eqn:E;
    [done|].
  assert (v ∈ Db.getMediaForSession (Db.deleteSession d id).2 id) as Hin
    by (rewrite E; left).
  apply elem_of_getMediaForSession in Hin as (k & Hk & Hv).
  rewrite deleteSession_media_lookup in Hk.
  destruct (media d !! k) as [v'|]; [|done].
  case_decide; [done|]. congruence.
Qed.

Lemma deleteSession_other_session d id sid :
  sid ≠ id →
  Db.getMediaForSession (Db.deleteSession d id).2 sid
  ≡ₚ Db.getMediaForSession d sid.
Proof.
  intros Hne. apply getMediaForSession_perm_of_lookup. intros k v Hv.
  rewrite deleteSession_media_lookup.
  destruct (media d !! k) as [v'|] eqn:Hk; [|done].
  case_decide as Hid; [|done].
  split; [done|]. intros [= ->]. congruence.
Qed.

Lemma DB_eq (d d' : DB) :
  sessions d = sessions d' → media d = media d' → d = d'.
Proof. destruct d, d'. simpl. by intros -> ->. Qed.

Lemma deleteSession_absent d id :
  sessions d !! id = None →
  (∀ k v, media d !! k = Some v → MediaItem.sessionId v ≠ id) →
  (Db.deleteSession d id).2 = d.
Proof.
  intros Hs Hm. apply DB_eq.
  - simpl. by apply delete_id.
  - apply map_eq. intros k. rewrite deleteSession_media_lookup.
    destruct (media d !! k) as [v|] eqn:Hk; [|done].
    case_decide as Hid; [|done]. by apply Hm in Hk.
Qed.

Lemma deleteSession_twice d id :
  (Db.deleteSession (Db.deleteSession d id).2 id).2 = (Db.deleteSession d id).2.
Proof.
  apply deleteSession_absent.
  - simpl. apply lookup_delete_eq.
  - intros k v. rewrite deleteSession_media_lookup.
    destruct (media d !! k) as [v'|]; [|done].
    case_decide; [done|]. congruence.
Qed.

Lemma gap_free_deleteSession d id sid :
  gap_free d sid → gap_free (Db.deleteSession d id).2 sid.
Proof.
  intros Hd. destruct (decide (sid = id)) as [->|Hne].
  - unfold gap_free. by rewrite deleteSession_getMediaForSession.
  - eapply gap_free_perm; [|done]. by apply deleteSession_other_session.
Qed.

Lemma keyed_by_id_deleteSession d id :
  keyed_by_id d → keyed_by_id (Db.deleteSession d id).2.
Proof.
  intros [Hs Hm]. split.
  - intros k s. simpl. rewrite lookup_delete. case_decide; [done|]. apply Hs.
  - intros k v. rewrite deleteSession_media_lookup.
    destruct (media d !! k) as [v'|] eqn:Hk; [|done].
    case_decide; [done|]. intros [= <-]. by apply Hm.
Qed.

(** ** [addMediaItem] *)

Lemma addMediaItem_rejected d item now :
  is_Some (media d !! MediaItem.id item) →
  Db.addMediaItem d item now = (Rejected ConstraintError, d).
Proof.
  intros [v Hv]. unfold Db.addMediaItem, IDB.add. simpl. by rewrite Hv.
Qed.

Lemma addMediaItem_resolved d item now :
  media d !! MediaItem.id item = None →
  Db.addMediaItem d item now
  = (Resolved tt,
     {| sessions :=
          match sessions d !! MediaItem.sessionId item with
          | Some s => <[Session.id s := Session.bump_added s now]> (sessions d)
          | None => sessions d
          end;
        media := <[MediaItem.id item := appended d item]> (media d) |}).
Proof.
  intros Hfresh. unfold Db.addMediaItem, IDB.add, appended. simpl.
  by rewrite Hfresh, length_getMediaForSession.
Qed.

Lemma addMediaItem_resolved_iff d item now :
  (Db.addMediaItem d item now).1 = Resolved tt
  ↔ media d !! MediaItem.id item = None.
Proof.
  destruct (media d !! MediaItem.id item) as [v|] eqn:Hk.
  - rewrite addMediaItem_rejected by eauto. simpl. split; discriminate.
  - by rewrite addMediaItem_resolved.
Qed.

Lemma addMediaItem_getMediaForSession d item now sid :
  media d !! MediaItem.id item = None →
  Db.getMediaForSession (Db.addMediaItem d item now).2 sid
  ≡ₚ (if decide (MediaItem.sessionId item = sid) then [appended d item] else [])
     ++ Db.getMediaForSession d sid.
Proof.
  intros Hfresh. rewrite addMediaItem_resolved by done.
  rewrite !getMediaForSession_perm. unfold IDB.index_getAll. simpl.
  rewrite index_entries_insert_fresh by done. rewrite fmap_app.
  f_equiv. simpl. unfold appended. simpl. by case_decide.
Qed.

Lemma seqZ_snoc (n : nat) :
  Z.of_nat <$> seq 0 (S n) ≡ₚ Z.of_nat n :: (Z.of_nat <$> seq 0 n).
Proof.
  rewrite seq_S, fmap_app. simpl. by rewrite <- Permutation_cons_append.
Qed.

Lemma gap_free_addMediaItem d item now sid :
  gap_free d sid → gap_free (Db.addMediaItem d item now).2 sid.
Proof.
  intros Hd. destruct (media d !! MediaItem.id item) as [v|] eqn:Hk.
  { rewrite addMediaItem_rejected by eauto. done. }
  unfold gap_free in *.
  rewrite (addMediaItem_getMediaForSession d item now sid Hk).
  case_decide as Hsid; [|done].
  change (length ([appended d item] ++ Db.getMediaForSession d sid))
    with (S (length (Db.getMediaForSession d sid))).
  rewrite seqZ_snoc, fmap_app, <- Hd. unfold appended. simpl. by rewrite Hsid.
Qed.

Lemma keyed_by_id_addMediaItem d item now :
  keyed_by_id d → keyed_by_id (Db.addMediaItem d item now).2.
Proof.
  intros [Hs Hm]. destruct (media d !! MediaItem.id item) as [v|] eqn:Hk.
  { rewrite addMediaItem_rejected by eauto. done. }
  rewrite addMediaItem_resolved by done. split; simpl.
  - intros k s. destruct (sessions d !! MediaItem.sessionId item) as [s0|];
      [|apply Hs].
    rewrite lookup_insert. case_decide as E; [|apply Hs].
    intros [= <-]. done.
  - intros k v. rewrite lookup_insert. case_decide as E; [|apply Hm].
    intros [= <-]. done.
Qed.

(** ** [updateMediaItems] and the drag reorder *)

Section put_all.
Implicit Types (st : gmap string MediaItem.t) (items : list MediaItem.t).

Let put_all st items :=
  foldl (λ s item, IDB.put MediaItem.id item s) st items.

Lemma put_all_lookup_other st items k :
  (k ∉ MediaItem.id <$> items) → put_all st items !! k = st !! k.
Proof.
  revert st. induction items as [|x items IH]; intros st Hk; [done|].
  simpl in *. apply not_elem_of_cons in Hk as [Hx Hk].
  rewrite IH by done. unfold IDB.put. by rewrite lookup_insert_ne.
Qed.

Lemma put_all_lookup_item st items v :
  NoDup (MediaItem.id <$> items) → v ∈ items →
  put_all st items !! MediaItem.id v = Some v.
Proof.
  revert st. induction items as [|x items IH]; intros st Hnd Hv.
  { by apply elem_of_nil in Hv. }
  simpl in *. apply NoDup_cons in Hnd as [Hx Hnd].
  apply elem_of_cons in Hv as [->|Hv]; [|by apply IH].
  rewrite put_all_lookup_other by done.
  unfold IDB.put. apply lookup_insert_eq.
Qed.

Lemma put_all_lookup_inv st items k v :
  put_all st items !! k = Some v →
  (v ∈ items ∧ MediaItem.id v = k)
  ∨ ((k ∉ MediaItem.id <$> items) ∧ st !! k = Some v).
Proof.
  revert st. induction items as [|x items IH]; intros st Hk; simpl in *.
  { right. split; [apply not_elem_of_nil|done]. }
  apply IH in Hk as [[Hv Hid]|[Hnot Hk]].
  { left. split; [by right|done]. }
  unfold IDB.put in Hk. rewrite lookup_insert in Hk.
  case_decide as E.
  - injection Hk as <-. left. split; [by left|done].
  - right. split; [|done]. apply not_elem_of_cons. split; [congruence|done].
Qed.
End put_all.

Section updates_facts.
Implicit Types (m : list MediaItem.t).

Lemma fmap_imap_with_order {B} (h : MediaItem.t → B) (g : nat → Z) m :
  (∀ it o, h (MediaItem.with_order it o) = h it) →
  h <$> imap (λ i it, MediaItem.with_order it (g i)) m = h <$> m.
Proof.
  intros Hh. revert g. induction m as [|x m IH]; intros g; [done|].
  simpl. rewrite Hh. f_equal. apply (IH (g ∘ S)).
Qed.

Lemma updates_ids m : MediaItem.id <$> SessionDetail.updates m = MediaItem.id <$> m.
Proof. by apply (fmap_imap_with_order MediaItem.id). Qed.

Lemma updates_sessionIds m :
  MediaItem.sessionId <$> SessionDetail.updates m = MediaItem.sessionId <$> m.
Proof. by apply (fmap_imap_with_order MediaItem.sessionId). Qed.

Lemma length_updates m : length (SessionDetail.updates m) = length m.
Proof. apply length_imap. Qed.

Lemma imap_orders (n : nat) m :
  MediaItem.order
    <$> imap (λ i it, MediaItem.with_order it (Z.of_nat (n + i))) m
  = Z.of_nat <$> seq n (length m).
Proof.
  revert n. induction m as [|x m IH]; intros n; [done|].
  rewrite imap_cons. cbn [length seq]. rewrite !fmap_cons, <- (IH (S n)).
  simpl. rewrite Nat.add_0_r. f_equal. f_equal.
  apply imap_ext. intros i y _. simpl. do 2 f_equal. lia.
Qed.

Lemma updates_orders m :
  MediaItem.order <$> SessionDetail.updates m = Z.of_nat <$> seq 0 (length m).
Proof. apply (imap_orders 0). Qed.

(** A list whose [order]s count up is in the order the listing sorts by. *)
Lemma counting_sorted (n : nat) m :
  MediaItem.order <$> m = Z.of_nat <$> seq n (length m) →
  StronglySorted (λ a b, Db.compareMedia a b <= 0) m.
Proof.
  revert n. induction m as [|x m IH]; intros n Hm; [constructor|].
  cbn [length seq] in Hm. rewrite !fmap_cons in Hm.
  injection Hm as Hx Hm. constructor; [by apply (IH (S n))|].
  apply Forall_forall. intros y Hy. apply compareMedia_lt_order.
  assert (MediaItem.order y ∈ Z.of_nat <$> seq (S n) (length m)) as Ho.
  { rewrite <- Hm. by apply list_elem_of_fmap_2. }
  apply list_elem_of_fmap in Ho as (j & -> & Hj).
  apply elem_of_seq in Hj. lia.
Qed.

Lemma updates_sorted m :
  StronglySorted (λ a b, Db.compareMedia a b <= 0) (SessionDetail.updates m).
Proof.
  apply (counting_sorted 0). by rewrite updates_orders, length_updates.
Qed.

Lemma updates_order_inj m x1 x2 :
  x1 ∈ SessionDetail.updates m → x2 ∈ SessionDetail.updates m →
  MediaItem.order x1 = MediaItem.order x2 → x1 = x2.
Proof.
  unfold SessionDetail.updates.
  intros (i1 & y1 & -> & H1)%elem_of_lookup_imap
         (i2 & y2 & -> & H2)%elem_of_lookup_imap Ho.
  simpl in Ho. assert (i1 = i2) as -> by lia. congruence.
Qed.
End updates_facts.

Section drag_reorder.
Context (d : DB) (sid : string) (m : list MediaItem.t).
Hypothesis Hkeyed : keyed_by_id d.
Hypothesis Harr : arranges d sid m.

Let d' : DB := (Db.updateMediaItems d (SessionDetail.updates m)).2.

Lemma stored_ids_keys :
  MediaItem.id <$> IDB.index_getAll MediaItem.sessionId sid (media d)
  = IDB.index_getAllKeys MediaItem.sessionId sid (media d).
Proof.
  unfold IDB.index_getAll, IDB.index_getAllKeys.
  rewrite <- list_fmap_compose. apply Forall_fmap_ext, Forall_forall.
  intros [k v] Hin. apply elem_of_index_entries in Hin as [Hk _].
  simpl. by apply Hkeyed.
Qed.

Lemma arranges_ids_perm :
  MediaItem.id <$> m ≡ₚ IDB.index_getAllKeys MediaItem.sessionId sid (media d).
Proof.
  destruct Harr as [Hp _]. rewrite Hp, getMediaForSession_perm.
  by rewrite stored_ids_keys.
Qed.

Lemma arranges_NoDup : NoDup (MediaItem.id <$> m).
Proof. rewrite arranges_ids_perm. apply NoDup_index_getAllKeys. Qed.

Lemma arranges_elem_id k :
  k ∈ MediaItem.id <$> m
  ↔ ∃ v, media d !! k = Some v ∧ MediaItem.sessionId v = sid.
Proof. by rewrite arranges_ids_perm, elem_of_index_getAllKeys. Qed.

Lemma updates_in_session v :
  v ∈ SessionDetail.updates m → MediaItem.sessionId v = sid.
Proof.
  intros Hv. destruct Harr as [_ Hs].
  assert (MediaItem.sessionId v ∈ MediaItem.sessionId <$> m) as Hin.
  { rewrite <- updates_sessionIds. by apply list_elem_of_fmap_2. }
  apply list_elem_of_fmap in Hin as (y & -> & Hy).
  by apply (proj1 (Forall_forall _ _) Hs).
Qed.

Lemma dragEnd_lookup_session k v :
  media d' !! k = Some v ∧ MediaItem.sessionId v = sid
  ↔ v ∈ SessionDetail.updates m ∧ MediaItem.id v = k.
Proof.
  split.
  - intros [Hk Hv]. simpl in Hk.
    apply put_all_lookup_inv in Hk as [?|[Hnot Hk]]; [done|].
    exfalso. apply Hnot. rewrite updates_ids. apply arranges_elem_id. eauto.
  - intros [Hv <-]. split; [|by apply updates_in_session].
    simpl. apply put_all_lookup_item; [|done].
    rewrite updates_ids. apply arranges_NoDup.
Qed.

Lemma dragEnd_lookup_other k v :
  MediaItem.sessionId v ≠ sid →
  media d' !! k = Some v ↔ media d !! k = Some v.
Proof.
  intros Hv. simpl. split.
  - intros Hk. apply put_all_lookup_inv in Hk as [[Hin _]|[_ Hk]]; [|done].
    by apply updates_in_session in Hin.
  - intros Hk. rewrite put_all_lookup_other; [done|].
    rewrite updates_ids, arranges_elem_id. intros (v' & Hk' & Hv').
    congruence.
Qed.

Lemma dragEnd_stored :
  IDB.index_getAll MediaItem.sessionId sid (media d')
  ≡ₚ SessionDetail.updates m.
Proof.
  unfold IDB.index_getAll.
  rewrite (index_entries_perm MediaItem.sessionId sid (media d')
             ((λ v, (MediaItem.id v, v)) <$> SessionDetail.updates m)).
  - rewrite <- list_fmap_compose. simpl. by rewrite list_fmap_id.
  - apply (NoDup_fmap_1 fst). rewrite <- list_fmap_compose. simpl.
    change (NoDup (MediaItem.id <$> SessionDetail.updates m)).
    rewrite updates_ids. apply arranges_NoDup.
  - intros k v. rewrite dragEnd_lookup_session, list_elem_of_fmap. split.
    + intros (v' & [= -> ->] & Hin). done.
    + intros [Hin <-]. by exists v.
Qed.

(** After the reorder is stored, the session lists exactly the list that
    was dragged into shape, with [order] set to the position. *)
Lemma dragEnd_listing :
  Db.getMediaForSession d' sid = SessionDetail.updates m.
Proof.
  apply (StronglySorted_unique_strong (λ a b, Db.compareMedia a b <= 0)).
  - intros x1 x2 H1 H2 H12 H21.
    apply (updates_order_inj m); [|done|].
    + by rewrite getMediaForSession_perm, dragEnd_stored in H1.
    + apply compareMedia_le_order in H12, H21. lia.
  - apply getMediaForSession_sorted.
  - apply updates_sorted.
  - rewrite getMediaForSession_perm. apply dragEnd_stored.
Qed.

Lemma dragEnd_other_session sid' :
  sid' ≠ sid →
  Db.getMediaForSession d' sid' ≡ₚ Db.getMediaForSession d sid'.
Proof.
  intros Hne. apply getMediaForSession_perm_of_lookup. intros k v Hv.
  apply dragEnd_lookup_other. congruence.
Qed.

Lemma gap_free_dragEnd sid' : gap_free d sid' → gap_free d' sid'.
Proof.
  intros Hd. destruct (decide (sid' = sid)) as [->|Hne].
  - unfold gap_free. by rewrite dragEnd_listing, updates_orders, length_updates.
  - eapply gap_free_perm; [|done]. by apply dragEnd_other_session.
Qed.

Lemma keyed_by_id_dragEnd : keyed_by_id d'.
Proof.
  destruct Hkeyed as [Hs Hm]. split; [done|].
  intros k v Hk. simpl in Hk.
  apply put_all_lookup_inv in Hk as [[_ ?]|[_ Hk]]; [done|by apply Hm].
Qed.
End drag_reorder.

Lemma arranges_of_perm d sid m :
  m ≡ₚ Db.getMediaForSession d sid → arranges d sid m.
Proof.
  intros Hp. split; [by rewrite Hp|].
  apply Forall_forall. intros v Hv. rewrite Hp in Hv.
  by apply elem_of_getMediaForSession in Hv as (k & _ & Hs).
Qed.

Lemma loadData_arranges st d :
  arranges d (SessionDetail.sessionId st)
           (SessionDetail.media (SessionDetail.loadData st d)).
Proof. by apply arranges_of_perm. Qed.

Lemma splice_out_perm {A} (l : list A) i x :
  l !! i = Some x → x :: JS.splice_out i l ≡ₚ l.
Proof.
  intros Hi. unfold JS.splice_out. rewrite Permutation_middle.
  by rewrite take_drop_middle.
Qed.

Lemma splice_in_perm {A} (l : list A) i x : JS.splice_in i x l ≡ₚ x :: l.
Proof.
  unfold JS.splice_in. by rewrite <- Permutation_middle, take_drop.
Qed.

(** Dragging a row over another one rearranges the list and nothing else. *)
Lemma handleDragOver_perm st index st' :
  SessionDetail.handleDragOver st index = Some st' →
  SessionDetail.media st' ≡ₚ SessionDetail.media st
  ∧ SessionDetail.sessionId st' = SessionDetail.sessionId st.
Proof.
  unfold SessionDetail.handleDragOver.
  destruct (SessionDetail.draggedIndex st) as [dragged|]; [|by intros [= <-]].
  case_bool_decide; [by intros [= <-]|].
  destruct (SessionDetail.media st !! dragged) as [x|] eqn:Hx; [|done].
  intros [= <-]. simpl. split; [|done].
  by rewrite splice_in_perm, splice_out_perm.
Qed.

Lemma arranges_perm d sid m m' : m' ≡ₚ m → arranges d sid m → arranges d sid m'.
Proof. intros Hp [H1 H2]. split; by rewrite Hp. Qed.

(** ** The writes that leave the media items of a session in place *)

Lemma keyed_by_id_empty : keyed_by_id Db.empty.
Proof. split; intros k v; simpl; by rewrite lookup_empty. Qed.

Lemma keyed_by_id_createSession d name uuid now :
  keyed_by_id d → keyed_by_id (Db.createSession d name uuid now).2.
Proof.
  intros [Hs Hm]. unfold Db.createSession, IDB.add. simpl.
  destruct (sessions d !! uuid); [done|]. split; [|done]. simpl.
  intros k s. rewrite lookup_insert. case_decide; [|apply Hs].
  by intros [= <-].
Qed.

Lemma gap_free_empty sid : gap_free Db.empty sid.
Proof. unfold gap_free. by vm_compute. Qed.

Lemma getMediaForSession_same_media d d' sid :
  media d' = media d →
  Db.getMediaForSession d' sid = Db.getMediaForSession d sid.
Proof. unfold Db.getMediaForSession. by intros ->. Qed.

Lemma createSession_media d name uuid now :
  media (Db.createSession d name uuid now).2 = media d.
Proof.
  unfold Db.createSession. by destruct (IDB.add _ _ (sessions d)).
Qed.

Lemma gap_free_createSession d name uuid now sid :
  gap_free d sid → gap_free (Db.createSession d name uuid now).2 sid.
Proof.
  unfold gap_free.
  by rewrite (getMediaForSession_same_media d _ sid (createSession_media _ _ _ _)).
Qed.

(** Overwriting a stored record by one with the same [sessionId] and [order]
    leaves the [order] values of every session as they were. *)
Lemma put_in_place_orders d v v' now sid :
  media d !! MediaItem.id v' = Some v →
  MediaItem.sessionId v' = MediaItem.sessionId v →
  MediaItem.order v' = MediaItem.order v →
  MediaItem.order <$> Db.getMediaForSession (Db.updateMediaItem d v' now).2 sid
  ≡ₚ MediaItem.order <$> Db.getMediaForSession d sid.
Proof.
  intros Hv Hsid Hord. rewrite !getMediaForSession_perm.
  unfold IDB.index_getAll. simpl. unfold IDB.put.
  set (k := MediaItem.id v') in *.
  assert (delete k (media d) !! k = None) as Hfresh by apply lookup_delete_eq.
  rewrite <- (insert_delete_id (media d) k v Hv) at 2.
  rewrite <- (insert_delete_eq (media d) k v').
  rewrite !index_entries_insert_fresh by done. rewrite !fmap_app.
  f_equiv. rewrite Hsid. case_decide; simpl; [|done]. by rewrite Hord.
Qed.

Lemma gap_free_put_in_place d v v' now sid :
  media d !! MediaItem.id v' = Some v →
  MediaItem.sessionId v' = MediaItem.sessionId v →
  MediaItem.order v' = MediaItem.order v →
  gap_free d sid → gap_free (Db.updateMediaItem d v' now).2 sid.
Proof.
  intros Hv Hsid Hord Hd. unfold gap_free in *.
  pose proof (put_in_place_orders d v v' now sid Hv Hsid Hord) as Hp.
  rewrite Hp, Hd. apply Permutation_length in Hp.
  rewrite !length_fmap in Hp. by rewrite Hp.
Qed.

Lemma keyed_by_id_updateMediaItem d item now :
  keyed_by_id d → keyed_by_id (Db.updateMediaItem d item now).2.
Proof.
  intros [Hs Hm]. split; simpl.
  - intros k s. destruct (sessions d !! MediaItem.sessionId item) as [s0|];
      [|apply Hs].
    unfold IDB.put. rewrite lookup_insert. case_decide; [|apply Hs].
    by intros [= <-].
  - intros k v. unfold IDB.put. rewrite lookup_insert.
    case_decide; [|apply Hm]. by intros [= <-].
Qed.

Lemma gap_free_performSave st d now sid :
  op_ready d (OpPerformSave st now) →
  gap_free d sid → gap_free (TrimView.performSave st d now).2 sid.
Proof.
  unfold TrimView.performSave. simpl.
  destruct (TrimView.item st) as [it|]; [|done].
  intros Hit Hd.
  by apply (gap_free_put_in_place d it
              (TrimView.updated it (TrimView.endTime st) (TrimView.crop st))).
Qed.

Lemma keyed_by_id_performSave st d now :
  keyed_by_id d → keyed_by_id (TrimView.performSave st d now).2.
Proof.
  unfold TrimView.performSave.
  destruct (TrimView.item st) as [it|]; [|done].
  apply keyed_by_id_updateMediaItem.
Qed.

(** ** What the writes do to the listings *)

Lemma gap_free_NoDup d sid :
  gap_free d sid → NoDup (MediaItem.order <$> Db.getMediaForSession d sid).
Proof.
  unfold gap_free. intros ->.
  apply (NoDup_fmap_2 _). apply NoDup_seq.
Qed.

Lemma gap_free_order_lt d sid v :
  gap_free d sid → v ∈ Db.getMediaForSession d sid →
  0 <= MediaItem.order v < Z.of_nat (length (Db.getMediaForSession d sid)).
Proof.
  unfold gap_free. intros Hd Hv.
  assert (MediaItem.order v ∈ MediaItem.order <$> Db.getMediaForSession d sid)
    as Hin by (by apply list_elem_of_fmap_2).
  rewrite Hd in Hin. apply list_elem_of_fmap in Hin as (i & -> & Hi).
  apply elem_of_seq in Hi. lia.
Qed.

Lemma NoDup_fmap_elem {A B} (f : A → B) (l : list A) x1 x2 :
  NoDup (f <$> l) → x1 ∈ l → x2 ∈ l → f x1 = f x2 → x1 = x2.
Proof.
  intros Hnd H1 H2 E.
  apply list_elem_of_lookup in H1 as [i Hi], H2 as [j Hj].
  assert (i = j) as ->; [|congruence].
  apply (NoDup_lookup (f <$> l) i j (f x1)); [done| |].
  - by rewrite list_lookup_fmap, Hi.
  - by rewrite list_lookup_fmap, Hj, E.
Qed.

(** The record [addMediaItem] stores goes to the tail of the listing of a
    session that is numbered without gaps. *)
Lemma addMediaItem_listing d item now :
  media d !! MediaItem.id item = None →
  gap_free d (MediaItem.sessionId item) →
  Db.getMediaForSession (Db.addMediaItem d item now).2 (MediaItem.sessionId item)
  = Db.getMediaForSession d (MediaItem.sessionId item) ++ [appended d item].
Proof.
  intros Hfresh Hgap. set (sid := MediaItem.sessionId item) in *.
  pose proof (addMediaItem_getMediaForSession d item now sid Hfresh) as Hp.
  rewrite decide_True in Hp by done.
  apply (StronglySorted_unique_strong (λ a b, Db.compareMedia a b <= 0)).
  - intros x1 x2 H1 H2 H12 H21.
    apply (NoDup_fmap_elem MediaItem.order
             (Db.getMediaForSession (Db.addMediaItem d item now).2 sid)).
    + apply gap_free_NoDup. by apply gap_free_addMediaItem.
    + done.
    + rewrite Hp. rewrite <- Permutation_cons_append in H2. done.
    + apply compareMedia_le_order in H12, H21. lia.
  - apply getMediaForSession_sorted.
  - apply StronglySorted_app. split; [|split].
    + intros x1 x2 H1 H2. apply list_elem_of_singleton in H2 as ->.
      apply compareMedia_lt_order.
      pose proof (gap_free_order_lt d sid x1 Hgap H1) as Hlt.
      unfold appended. simpl. fold sid. lia.
    + apply getMediaForSession_sorted.
    + repeat constructor.
  - rewrite Hp. apply Permutation_cons_append.
Qed.

Lemma addMediaItem_other_session d item now sid :
  sid ≠ MediaItem.sessionId item →
  Db.getMediaForSession (Db.addMediaItem d item now).2 sid
  ≡ₚ Db.getMediaForSession d sid.
Proof.
  intros Hne. destruct (media d !! MediaItem.id item) as [v|] eqn:Hk.
  { rewrite addMediaItem_rejected by eauto. done. }
  rewrite (addMediaItem_getMediaForSession d item now sid Hk).
  by rewrite decide_False by done.
Qed.

Lemma addMediaItem_getMediaItem d item now :
  media d !! MediaItem.id item = None →
  Db.getMediaItem (Db.addMediaItem d item now).2 (MediaItem.id item)
  = Some (appended d item).
Proof.
  intros Hfresh. rewrite addMediaItem_resolved by done.
  unfold Db.getMediaItem. simpl. apply lookup_insert_eq.
Qed.

Lemma performSave_orders st d now sid :
  op_ready d (OpPerformSave st now) →
  MediaItem.order <$> Db.getMediaForSession (TrimView.performSave st d now).2 sid
  ≡ₚ MediaItem.order <$> Db.getMediaForSession d sid.
Proof.
  unfold TrimView.performSave. simpl.
  destruct (TrimView.item st) as [it|]; [|done].
  intros Hit.
  by apply (put_in_place_orders d it
              (TrimView.updated it (TrimView.endTime st) (TrimView.crop st))).
Qed.

Lemma run_op_effect d op :
  keyed_by_id d → op_ready d op → op_effect d op.
Proof.
  intros Hkeyed Hready. destruct op as [item now|id|st|name uuid now|st now];
    unfold op_effect; cbn [run_op].
  - split; [|split].
    + intros Hfresh. split.
      * by apply addMediaItem_getMediaItem.
      * intros Hgap. by apply addMediaItem_listing.
    + intros Htaken. by rewrite addMediaItem_rejected.
    + intros sid' Hne. by apply addMediaItem_other_session.
  - split; [apply deleteSession_getMediaForSession|].
    intros sid' Hne. by apply deleteSession_other_session.
  - assert (Db.getMediaForSession (SessionDetail.handleDragEnd st d).2.2
              (SessionDetail.sessionId st)
            = SessionDetail.updates (SessionDetail.media st)) as E
      by (by apply dragEnd_listing).
    split; [done|]. split; [by rewrite E, updates_ids|]. split.
    + intros index it. rewrite E. unfold SessionDetail.updates.
      rewrite list_lookup_imap. intros Hit.
      destruct (SessionDetail.media st !! index) as [v|]; [|done].
      by injection Hit as <-.
    + intros sid' Hne. by eapply dragEnd_other_session.
  - apply createSession_media.
  - intros sid'. by apply performSave_orders.
Qed.

Lemma run_op_gap_free d op sid :
  keyed_by_id d → op_ready d op → gap_free d sid → gap_free (run_op d op) sid.
Proof.
  intros Hkeyed Hready Hgap. destruct op as [item now|id|st|name uuid now|st now].
  - by apply gap_free_addMediaItem.
  - by apply gap_free_deleteSession.
  - by eapply gap_free_dragEnd.
  - by apply gap_free_createSession.
  - by apply gap_free_performSave.
Qed.

Lemma run_op_keyed_by_id d op :
  keyed_by_id d → keyed_by_id (run_op d op).
Proof.
  intros Hkeyed. destruct op as [item now|id|st|name uuid now|st now].
  - by apply keyed_by_id_addMediaItem.
  - by apply keyed_by_id_deleteSession.
  - by apply keyed_by_id_dragEnd.
  - by apply keyed_by_id_createSession.
  - by apply keyed_by_id_performSave.
Qed.

(** In every store the application can build, the records are filed under
    their ids and every session is numbered without gaps. *)
Lemma reachable_gap_free d :
  reachable d → keyed_by_id d ∧ ∀ sid, gap_free d sid.
Proof.
  induction 1 as [|d op Hd [IHk IHg] Hready].
  - split; [apply keyed_by_id_empty|apply gap_free_empty].
  - split; [by apply run_op_keyed_by_id|].
    intros sid. by apply run_op_gap_free.
Qed.

(** * The store: adding an item *)

(** C1 (as the code has it).  [addMediaItem] for an item whose [sessionId]
    names no stored session, and whose [id] is new, resolves: no session
    record is created or changed, and the item is stored at the tail
    position of the items that carry the same [sessionId], where the reads
    [getMediaItem] and [getMediaForSession] return it. *)
Theorem addMediaItem_without_session d item now :
  sessions d !! MediaItem.sessionId item = None →
  media d !! MediaItem.id item = None →
  let r := Db.addMediaItem d item now in
  r.1 = Resolved tt
  ∧ sessions r.2 = sessions d
  ∧ Db.getMediaItem r.2 (MediaItem.id item) = Some (appended d item)
  ∧ appended d item ∈ Db.getMediaForSession r.2 (MediaItem.sessionId item).
Proof.
  intros Hs Hfresh r. subst r. rewrite addMediaItem_resolved by done. simpl.
  rewrite Hs. split; [done|]. split; [done|].
  unfold Db.getMediaItem. simpl. rewrite lookup_insert_eq. split; [done|].
  apply elem_of_getMediaForSession. exists (MediaItem.id item). simpl.
  by rewrite lookup_insert_eq.
Qed.

(** C3 (as the code has it).  For a stored session [S] and an item of that
    session, an [addMediaItem] that resolves stores the item with [order]
    equal to the number of the session's items before the call, raises
    [S.itemCount] by exactly 1 and sets [S.lastModified] to the clock
    reading [now]; every other field of [S] stays, and [lastModified] has
    grown strictly whenever [now] is later than its old value. *)
Theorem addMediaItem_appends_and_bumps d S item now :
  sessions d !! Session.id S = Some S →
  MediaItem.sessionId item = Session.id S →
  (Db.addMediaItem d item now).1 = Resolved tt →
  let d' := (Db.addMediaItem d item now).2 in
  let n := Z.of_nat (length (Db.getMediaForSession d (Session.id S))) in
  Db.getMediaItem d' (MediaItem.id item) = Some (MediaItem.with_order item n)
  ∧ Db.getMediaForSession d' (Session.id S)
    ≡ₚ MediaItem.with_order item n :: Db.getMediaForSession d (Session.id S)
  ∧ ∃ S', sessions d' !! Session.id S = Some S'
          ∧ S' = Session.bump_added S now
          ∧ Session.itemCount S' = Session.itemCount S + 1
          ∧ Session.lastModified S' = now
          ∧ (Session.lastModified S < now →
             Session.lastModified S < Session.lastModified S').
Proof.
  intros HS Hsid Hok d' n. apply addMediaItem_resolved_iff in Hok.
  split; [|split].
  - subst d'. rewrite addMediaItem_resolved by done.
    unfold Db.getMediaItem. simpl. rewrite lookup_insert_eq.
    unfold appended. by rewrite Hsid.
  - subst d'. rewrite (addMediaItem_getMediaForSession d item now _ Hok).
    rewrite decide_True by done. unfold appended. by rewrite Hsid.
  - exists (Session.bump_added S now). subst d'.
    rewrite addMediaItem_resolved by done. simpl. rewrite Hsid, HS.
    rewrite lookup_insert_eq. done.
Qed.

(** * The store: deleting a session *)

(** C5 (as the code has it).  [deleteSession id] always resolves.  It removes
    the session record and every media item whose [sessionId] is [id] and
    nothing else, so that afterwards [getMediaForSession id] is empty and no
    listed session has this id.  When [id] names no session and no stored
    item carries it as [sessionId], the store is left as it was; and a
    second call on the same id returns the result and the store of the
    first. *)
Theorem deleteSession_cascade d id :
  keyed_by_id d →
  let r := Db.deleteSession d id in
  r.1 = Resolved tt
  ∧ (∀ s, s ∈ Db.getSessions r.2 → Session.id s ≠ id)
  ∧ (∀ k, k ≠ id → sessions r.2 !! k = sessions d !! k)
  ∧ Db.getMediaForSession r.2 id = []
  ∧ (∀ k v, media r.2 !! k = Some v
            ↔ media d !! k = Some v ∧ MediaItem.sessionId v ≠ id)
  ∧ (sessions d !! id = None →
     (∀ k v, media d !! k = Some v → MediaItem.sessionId v ≠ id) →
     r.2 = d)
  ∧ Db.deleteSession r.2 id = r.
Proof.
  intros Hkeyed r. split; [done|]. split; [|split; [|split; [|split; [|split]]]].
  - intros s Hs Hid. apply getSessions_elem in Hs as [k Hk].
    pose proof (proj1 (keyed_by_id_deleteSession d id Hkeyed) k s Hk) as Hks.
    subst r. simpl in Hk. rewrite <- Hks, Hid, lookup_delete_eq in Hk. done.
  - intros k Hk. subst r. simpl. by rewrite lookup_delete_ne.
  - apply deleteSession_getMediaForSession.
  - intros k v. subst r. rewrite deleteSession_media_lookup.
    destruct (media d !! k) as [v'|]; [|split; [done|by intros [? _]]].
    case_decide as Hid.
    + split; [done|]. intros [[= ->] ?]. done.
    + split; [by intros [= <-]|by intros [? _]].
  - apply deleteSession_absent.
  - pose proof (deleteSession_twice d id) as Htwice. subst r.
    destruct (Db.deleteSession (Db.deleteSession d id).2 id) as [o d2] eqn:E.
    assert (o = Resolved tt) as -> by (by injection E as <- _).
    simpl in Htwice. by rewrite Htwice.
Qed.

(** * The drag reorder *)

(** C7.  Storing a reorder leaves the session store as it is: every session
    record, its [lastModified] included, reads as before. *)
Theorem reorder_keeps_sessions st d items :
  sessions (SessionDetail.handleDragEnd st d).2.2 = sessions d
  ∧ sessions (Db.updateMediaItems d items).2 = sessions d
  ∧ Db.getSessions (SessionDetail.handleDragEnd st d).2.2 = Db.getSessions d
  ∧ (∀ k S, sessions d !! k = Some S →
       ∃ S', sessions (SessionDetail.handleDragEnd st d).2.2 !! k = Some S'
             ∧ S' = S
             ∧ Session.lastModified S' = Session.lastModified S).
Proof.
  split; [done|]. split; [done|]. split; [done|].
  intros k S Hk. exists S. done.
Qed.

(** C8.  When the list the component holds names exactly the stored items of
    its session, storing the reorder resolves and the next
    [getMediaForSession] returns the items in exactly the sequence of that
    list (each with [order] equal to its position). *)
Theorem reorder_then_list st d :
  keyed_by_id d →
  arranges d (SessionDetail.sessionId st) (SessionDetail.media st) →
  let r := (SessionDetail.handleDragEnd st d).2 in
  r.1 = Resolved tt
  ∧ MediaItem.id <$> Db.getMediaForSession r.2 (SessionDetail.sessionId st)
    = MediaItem.id <$> SessionDetail.media st
  ∧ Db.getMediaForSession r.2 (SessionDetail.sessionId st)
    = SessionDetail.updates (SessionDetail.media st).
Proof.
  intros Hkeyed Harr r. split; [done|].
  assert (Db.getMediaForSession r.2 (SessionDetail.sessionId st)
          = SessionDetail.updates (SessionDetail.media st)) as E
    by (by apply dragEnd_listing).
  split; [|done]. by rewrite E, updates_ids.
Qed.

(** C2.  The gap-free numbering of a session's items (their [order] values
    are 0, ..., n-1, each once) is kept by every operation that creates,
    deletes or reorders media items, and each does what it is said to do:
    [addMediaItem] stores the item with [order] n, the number of items the
    session listed, at the tail of the session's listing; [deleteSession]
    leaves the session no item; the drag reorder of a list that names the
    session's stored items makes the session list that list, every item
    with [order] equal to its index.  The other writes of the application,
    [createSession] and the trim editor's save, change no [order].  The
    filing of records under their ids is kept as well, so the statement
    applies again to the resulting store. *)
Theorem order_gap_free_preserved d op sid :
  keyed_by_id d → op_ready d op → gap_free d sid →
  gap_free (run_op d op) sid ∧ keyed_by_id (run_op d op) ∧ op_effect d op.
Proof.
  intros Hkeyed Hready Hgap. split; [|split].
  - by apply run_op_gap_free.
  - by apply run_op_keyed_by_id.
  - by apply run_op_effect.
Qed.


(** * The merge player *)

Lemma shown_playing st c :
  SessionDetail.isMerging st = true →
  SessionDetail.mergeQueue st !! SessionDetail.currentMergeIndex st = Some c →
  SessionDetail.shown st = Some c.
Proof. unfold SessionDetail.shown. by intros -> ->. Qed.

Lemma truthy_nonzero e : ¬ (e == 0)%Q → JS.truthy (Some e) = true.
Proof.
  intros He. simpl. destruct (Qeq_bool e 0) eqn:E; [|done].
  by apply Qeq_bool_iff in E.
Qed.

Lemma playNextInQueue_last st :
  S (SessionDetail.currentMergeIndex st) = length (SessionDetail.mergeQueue st) →
  SessionDetail.phase (SessionDetail.playNextInQueue st) = SessionDetail.Stopped.
Proof.
  intros Hi. unfold SessionDetail.playNextInQueue.
  rewrite bool_decide_eq_false_2 by lia. done.
Qed.

Lemma playNextInQueue_next st :
  SessionDetail.isMerging st = true →
  (S (SessionDetail.currentMergeIndex st)
   < length (SessionDetail.mergeQueue st))%nat →
  SessionDetail.phase (SessionDetail.playNextInQueue st)
  = SessionDetail.Playing (S (SessionDetail.currentMergeIndex st))
  ∧ SessionDetail.shown (SessionDetail.playNextInQueue st)
    = SessionDetail.mergeQueue st !! S (SessionDetail.currentMergeIndex st).
Proof.
  intros Hm Hi. unfold SessionDetail.playNextInQueue.
  rewrite bool_decide_eq_true_2 by lia.
  unfold SessionDetail.phase, SessionDetail.shown. simpl. rewrite Hm.
  destruct (lookup_lt_is_Some_2 (SessionDetail.mergeQueue st) _ Hi) as [c' ->].
  done.
Qed.


(** * The flag workflow *)

(** With the suppress-prompt preference stored as true, the handler that
    a flagged stop installs stores the recording at once, as a video of the
    camera's session with [trimNeeded = true] (the id drawn being new), and
    leaves the component's state as it was. *)
Lemma onstop_suppressed st w e blob :
  Preferences.getShouldSkipFlagPrompt (localStorage w) = true →
  media (db w) !! CameraView.uuid e = None →
  let r := CameraView.onstop true st w e blob in
  r.1 = st
  ∧ localStorage r.2 = localStorage w
  ∧ ∃ it, Db.getMediaItem (db r.2) (CameraView.uuid e) = Some it
          ∧ MediaItem.trimNeeded it = Some true
          ∧ MediaItem.type it = video
          ∧ MediaItem.blob it = blob
          ∧ MediaItem.sessionId it = CameraView.sessionId st
          ∧ it ∈ Db.getMediaForSession (db r.2) (CameraView.sessionId st).
Proof.
  intros Hskip Hfresh r. subst r.
  unfold CameraView.onstop, CameraView.handleFlaggedWorkflow.
  rewrite Hskip. unfold CameraView.saveMedia.
  rewrite addMediaItem_resolved by done. simpl.
  split; [done|]. split; [done|].
  eexists. unfold Db.getMediaItem. simpl. rewrite lookup_insert_eq.
  split; [done|]. simpl. split; [done|]. split; [done|]. split; [done|].
  split; [done|].
  apply elem_of_getMediaForSession. exists (CameraView.uuid e). simpl.
  by rewrite lookup_insert_eq.
Qed.

(** [finishRecording] during a recording: under 500 ms the take is dropped,
    from 500 ms on the stop handler runs on the recorded blob. *)
Lemma finishRecording_short isFlagged recorder st w e now blob :
  CameraControls.hasRecorder recorder = true →
  CameraControls.isRecording recorder = true →
  now - CameraControls.recordingStartTime recorder < 500 →
  CameraControls.finishRecording isFlagged recorder st w e now blob
  = (CameraControls.stopped recorder, (st, w)).
Proof.
  intros Hrec Hon Hshort. unfold CameraControls.finishRecording.
  rewrite Hrec, Hon. simpl.
  by destruct (Z.ltb_spec (now - CameraControls.recordingStartTime recorder) 500);
    [|lia].
Qed.

Lemma finishRecording_long isFlagged recorder st w e now blob :
  CameraControls.hasRecorder recorder = true →
  CameraControls.isRecording recorder = true →
  500 <= now - CameraControls.recordingStartTime recorder →
  CameraControls.finishRecording isFlagged recorder st w e now blob
  = (CameraControls.stopped recorder, CameraView.onstop isFlagged st w e blob).
Proof.
  intros Hrec Hon Hlong. unfold CameraControls.finishRecording.
  rewrite Hrec, Hon. simpl.
  by destruct (Z.ltb_spec (now - CameraControls.recordingStartTime recorder) 500);
    [lia|].
Qed.

(** C9 (as the code has it).  With the suppress-prompt preference stored as
    true, the flagged stop action during a recording ends the recording and
    never shows the flag modal or leaves a blob pending: the component's
    state and the preferences stay as they were.  When at least 500 ms have
    passed since the recording started, the recording is stored at once as
    a video of the camera's session with [trimNeeded = true] (the id drawn
    being new) and the session lists it; when less than 500 ms have passed,
    nothing is stored. *)
Theorem flagged_stop_with_prompt_suppressed recorder st w e now blob :
  CameraControls.hasRecorder recorder = true →
  CameraControls.isRecording recorder = true →
  Preferences.getShouldSkipFlagPrompt (localStorage w) = true →
  media (db w) !! CameraView.uuid e = None →
  let out := CameraControls.stopRecordingFlagged recorder st w e now blob in
  CameraControls.isRecording out.1 = false
  ∧ out.2.1 = st
  ∧ CameraView.showFlagModal out.2.1 = CameraView.showFlagModal st
  ∧ CameraView.pendingFlaggedBlob out.2.1 = CameraView.pendingFlaggedBlob st
  ∧ localStorage out.2.2 = localStorage w
  ∧ (500 <= now - CameraControls.recordingStartTime recorder →
     ∃ it, Db.getMediaItem (db out.2.2) (CameraView.uuid e) = Some it
           ∧ MediaItem.trimNeeded it = Some true
           ∧ MediaItem.type it = video
           ∧ MediaItem.blob it = blob
           ∧ MediaItem.sessionId it = CameraView.sessionId st
           ∧ it ∈ Db.getMediaForSession (db out.2.2) (CameraView.sessionId st))
  ∧ (now - CameraControls.recordingStartTime recorder < 500 → out.2.2 = w).
Proof.
  intros Hrec Hon Hskip Hfresh out. subst out.
  unfold CameraControls.stopRecordingFlagged.
  destruct (Z.lt_ge_cases (now - CameraControls.recordingStartTime recorder) 500)
    as [Hshort|Hlong].
  - rewrite finishRecording_short by done. cbn [fst snd].
    do 5 (split; [done|]). split; [lia|done].
  - rewrite finishRecording_long by done.
    destruct (onstop_suppressed st w e blob Hskip Hfresh) as (Hst & Hls & Hit).
    cbn [fst snd]. rewrite Hst.
    do 5 (split; [done|]). split; [intros _; exact Hit|lia].
Qed.

(** * The trim editor *)

(** C10.  Saving from the trim / crop editor stores, under the id of the
    item being edited, a record with [trimNeeded = false], [trimEndTime] and
    [duration] both equal to the chosen end time, and [crop] equal to the
    chosen rectangle; the other fields are those of the item. *)
Theorem performSave_persists st d now it :
  TrimView.item st = Some it →
  let r := TrimView.performSave st d now in
  TrimView.saved r.1 = true
  ∧ ∃ it', Db.getMediaItem r.2 (MediaItem.id it) = Some it'
           ∧ MediaItem.trimNeeded it' = Some false
           ∧ MediaItem.trimEndTime it' = Some (TrimView.endTime st)
           ∧ MediaItem.duration it' = Some (TrimView.endTime st)
           ∧ MediaItem.crop it' = Some (TrimView.crop st)
           ∧ MediaItem.id it' = MediaItem.id it
           ∧ MediaItem.sessionId it' = MediaItem.sessionId it
           ∧ MediaItem.type it' = MediaItem.type it
           ∧ MediaItem.blob it' = MediaItem.blob it
           ∧ MediaItem.createdAt it' = MediaItem.createdAt it
           ∧ MediaItem.order it' = MediaItem.order it.
Proof.
  intros Hit r. subst r. unfold TrimView.performSave. rewrite Hit. simpl.
  split; [done|].
  exists (TrimView.updated it (TrimView.endTime st) (TrimView.crop st)).
  unfold Db.getMediaItem, IDB.put. simpl. rewrite lookup_insert_eq. done.
Qed.

(** * The statements at concrete inputs *)

Lemma keyed_by_id_dbA : keyed_by_id Scenario.dbA.
Proof.
  do 3 apply keyed_by_id_addMediaItem.
  apply keyed_by_id_createSession, keyed_by_id_empty.
Qed.

Lemma arranges_reordered :
  arranges Scenario.dbA "s1" (SessionDetail.media Scenario.reordered).
Proof.
  assert (Scenario.dragged = Some Scenario.reordered) as Hd
    by (vm_compute; reflexivity).
  apply handleDragOver_perm in Hd as [Hp _].
  eapply arranges_perm; [exact Hp|].
  apply (loadData_arranges Scenario.detail0 Scenario.dbA).
Qed.

Lemma gap_free_dbA : gap_free Scenario.dbA "s1".
Proof. unfold gap_free. vm_compute. reflexivity. Qed.

(** C1, at the empty store and an item of a session that does not exist. *)
Lemma addMediaItem_without_session_witness :
  sessions Db.empty !! MediaItem.sessionId Scenario.ghost = None
  ∧ media Db.empty !! MediaItem.id Scenario.ghost = None
  ∧ (Db.addMediaItem Db.empty Scenario.ghost 60).1 = Resolved tt
  ∧ sessions (Db.addMediaItem Db.empty Scenario.ghost 60).2 = sessions Db.empty
  ∧ Db.getMediaItem (Db.addMediaItem Db.empty Scenario.ghost 60).2
      (MediaItem.id Scenario.ghost)
    = Some (appended Db.empty Scenario.ghost)
  ∧ appended Db.empty Scenario.ghost
    ∈ Db.getMediaForSession (Db.addMediaItem Db.empty Scenario.ghost 60).2
        (MediaItem.sessionId Scenario.ghost).
Proof.
  split; [vm_compute; reflexivity|]. split; [vm_compute; reflexivity|].
  apply (addMediaItem_without_session Db.empty Scenario.ghost 60); vm_compute; reflexivity.
Defined.

(** C1 fails as stated: the add for a missing session does not fail, and the
    orphan item is what the next read of that session returns. *)
Lemma addMediaItem_orphan_counterexample :
  sessions Db.empty !! MediaItem.sessionId Scenario.ghost = None
  ∧ (Db.addMediaItem Db.empty Scenario.ghost 60).1 = Resolved tt
  ∧ Db.getMediaForSession (Db.addMediaItem Db.empty Scenario.ghost 60).2 "gone"
    = [Scenario.ghost].
Proof. repeat split; vm_compute; reflexivity. Qed.

(** C3, at the first add to the fresh session "S1", one clock step after
    the session was created. *)
Lemma addMediaItem_appends_and_bumps_witness :
  let S := {| Session.id := "s1"; Session.name := "S1";
              Session.createdAt := 100; Session.lastModified := 100;
              Session.thumbnailUrl := None; Session.itemCount := 0 |} in
  let item := Scenario.clip "m-7f" "s1" 5 110 in
  sessions Scenario.db0 !! Session.id S = Some S
  ∧ MediaItem.sessionId item = Session.id S
  ∧ (Db.addMediaItem Scenario.db0 item 101).1 = Resolved tt
  ∧ Db.getMediaItem (Db.addMediaItem Scenario.db0 item 101).2 "m-7f"
    = Some (MediaItem.with_order item 0)
  ∧ ∃ S', sessions (Db.addMediaItem Scenario.db0 item 101).2 !! "s1" = Some S'
          ∧ Session.itemCount S' = 1
          ∧ Session.lastModified S' = 101.
Proof.
  intros S item.
  assert (sessions Scenario.db0 !! Session.id S = Some S) as HS by (vm_compute; reflexivity).
  assert (MediaItem.sessionId item = Session.id S) as Hsid by (vm_compute; reflexivity).
  assert ((Db.addMediaItem Scenario.db0 item 101).1 = Resolved tt) as Hok
    by (vm_compute; reflexivity).
  split; [exact HS|]. split; [exact Hsid|]. split; [exact Hok|].
  destruct (addMediaItem_appends_and_bumps Scenario.db0 S item 101 HS Hsid Hok)
    as (Hget & _ & S' & HS' & _ & Hcount & Hmod & _).
  split; [exact Hget|]. exists S'. split; [exact HS'|]. split; assumption.
Defined.

(** C3 fails as stated: an add in the millisecond in which the session was
    created resolves, raises [itemCount] to 1 and leaves [lastModified] at
    the value it had. *)
Lemma addMediaItem_same_millisecond_counterexample :
  let d' := (Db.addMediaItem Scenario.db0 (Scenario.clip "m-7f" "s1" 5 100) 100) in
  Session.lastModified <$> sessions Scenario.db0 !! "s1" = Some 100
  ∧ d'.1 = Resolved tt
  ∧ Session.itemCount <$> sessions d'.2 !! "s1" = Some 1
  ∧ Session.lastModified <$> sessions d'.2 !! "s1" = Some 100.
Proof. repeat split; vm_compute; reflexivity. Qed.

(** C2, at the store of scenario A, whose session lists "m-7f", "m-2a",
    "m-9c".  After the drag reorder of scenario D it lists "m-9c", "m-7f",
    "m-2a" with [order] 0, 1, 2; after [addMediaItem] of a fourth clip
    instead, it lists the three and then the new clip with [order] 3. *)
Lemma order_gap_free_preserved_witness :
  let drag := OpDragEnd Scenario.reordered in
  let add := OpAddMediaItem (Scenario.clip "m-e4" "s1" 2 150) 151 in
  let row := λ it, (MediaItem.id it, MediaItem.order it) in
  (keyed_by_id Scenario.dbA
   ∧ op_ready Scenario.dbA drag ∧ op_ready Scenario.dbA add
   ∧ gap_free Scenario.dbA "s1")
  ∧ row <$> Db.getMediaForSession Scenario.dbA "s1"
    = [("m-7f", 0); ("m-2a", 1); ("m-9c", 2)]
  ∧ (gap_free (run_op Scenario.dbA drag) "s1"
     ∧ keyed_by_id (run_op Scenario.dbA drag)
     ∧ op_effect Scenario.dbA drag)
  ∧ row <$> Db.getMediaForSession (run_op Scenario.dbA drag) "s1"
    = [("m-9c", 0); ("m-7f", 1); ("m-2a", 2)]
  ∧ (gap_free (run_op Scenario.dbA add) "s1"
     ∧ keyed_by_id (run_op Scenario.dbA add)
     ∧ op_effect Scenario.dbA add)
  ∧ row <$> Db.getMediaForSession (run_op Scenario.dbA add) "s1"
    = [("m-7f", 0); ("m-2a", 1); ("m-9c", 2); ("m-e4", 3)].
Proof.
  intros drag add row.
  split; [repeat split;
          [apply keyed_by_id_dbA|apply keyed_by_id_dbA|
           apply arranges_reordered|apply arranges_reordered|
           exact gap_free_dbA]|].
  split; [vm_compute; reflexivity|].
  split; [exact (order_gap_free_preserved Scenario.dbA drag "s1"
                   keyed_by_id_dbA arranges_reordered gap_free_dbA)|].
  split; [vm_compute; reflexivity|].
  split; [exact (order_gap_free_preserved Scenario.dbA add "s1"
                   keyed_by_id_dbA I gap_free_dbA)|].
  vm_compute; reflexivity.
Defined.


(** C5, at the deletion of session "S1" of scenario A. *)
Lemma deleteSession_cascade_witness :
  keyed_by_id Scenario.dbA
  ∧ (Db.deleteSession Scenario.dbA "s1").1 = Resolved tt
  ∧ Db.getSessions (Db.deleteSession Scenario.dbA "s1").2 = []
  ∧ Db.getMediaForSession (Db.deleteSession Scenario.dbA "s1").2 "s1" = []
  ∧ Db.deleteSession (Db.deleteSession Scenario.dbA "s1").2 "s1"
    = Db.deleteSession Scenario.dbA "s1".
Proof.
  split; [exact keyed_by_id_dbA|].
  destruct (deleteSession_cascade Scenario.dbA "s1" keyed_by_id_dbA)
    as (Hok & _ & _ & Hmedia & _ & _ & Htwice).
  split; [exact Hok|]. split; [vm_compute; reflexivity|]. split; [exact Hmedia|].
  exact Htwice.
Defined.

(** C5 fails as stated: for an id that names no session, [deleteSession]
    still removes the items that carry the id, so the call is not a no-op
    when such orphans are stored. *)
Lemma deleteSession_orphans_counterexample :
  sessions Scenario.orphaned !! "gone" = None
  ∧ Db.getMediaForSession Scenario.orphaned "gone" = [Scenario.ghost]
  ∧ Db.getMediaForSession (Db.deleteSession Scenario.orphaned "gone").2 "gone"
    = []
  ∧ (Db.deleteSession Scenario.orphaned "gone").2 ≠ Scenario.orphaned.
Proof.
  split; [vm_compute; reflexivity|]. split; [vm_compute; reflexivity|]. split; [vm_compute; reflexivity|].
  intros E.
  assert (Db.getMediaForSession (Db.deleteSession Scenario.orphaned "gone").2
            "gone" = [Scenario.ghost]) as H by (by rewrite E).
  vm_compute in H. discriminate H.
Qed.



(** C8, at the drag reorder of scenario D. *)
Lemma reorder_then_list_witness :
  keyed_by_id Scenario.dbA
  ∧ arranges Scenario.dbA (SessionDetail.sessionId Scenario.reordered)
             (SessionDetail.media Scenario.reordered)
  ∧ MediaItem.id <$> SessionDetail.media Scenario.reordered
    = ["m-9c"; "m-7f"; "m-2a"]
  ∧ MediaItem.id
      <$> Db.getMediaForSession
            (SessionDetail.handleDragEnd Scenario.reordered Scenario.dbA).2.2
            (SessionDetail.sessionId Scenario.reordered)
    = MediaItem.id <$> SessionDetail.media Scenario.reordered.
Proof.
  split; [exact keyed_by_id_dbA|]. split; [exact arranges_reordered|].
  split; [vm_compute; reflexivity|].
  exact (proj1 (proj2 (reorder_then_list Scenario.reordered Scenario.dbA
                         keyed_by_id_dbA arranges_reordered))).
Defined.

(** C9, at a flagged stop three seconds into a recording in the camera of
    "S1", with the prompt suppressed. *)
Lemma flagged_stop_with_prompt_suppressed_witness :
  let out :=
    CameraControls.stopRecordingFlagged Examples.recording Scenario.camera
      Scenario.suppressed Examples.later 3200 Scenario.webm in
  (CameraControls.hasRecorder Examples.recording = true
   ∧ CameraControls.isRecording Examples.recording = true
   ∧ Preferences.getShouldSkipFlagPrompt (localStorage Scenario.suppressed)
     = true
   ∧ media (db Scenario.suppressed) !! CameraView.uuid Examples.later = None
   ∧ 500 <= 3200 - CameraControls.recordingStartTime Examples.recording)
  ∧ CameraControls.isRecording out.1 = false
  ∧ CameraView.showFlagModal out.2.1 = false
  ∧ CameraView.pendingFlaggedBlob out.2.1 = None
  ∧ ∃ it, Db.getMediaItem (db out.2.2) "m-e4" = Some it
          ∧ MediaItem.trimNeeded it = Some true
          ∧ it ∈ Db.getMediaForSession (db out.2.2) "s1".
Proof.
  intros out.
  assert (Preferences.getShouldSkipFlagPrompt (localStorage Scenario.suppressed)
          = true) as Hskip by (vm_compute; reflexivity).
  assert (media (db Scenario.suppressed) !! CameraView.uuid Examples.later
          = None) as Hfresh by (vm_compute; reflexivity).
  assert (500 <= 3200 - CameraControls.recordingStartTime Examples.recording)
    as Hlong by (vm_compute; discriminate).
  split; [split; [reflexivity|]; split; [reflexivity|];
          split; [exact Hskip|]; split; [exact Hfresh|exact Hlong]|].
  destruct (flagged_stop_with_prompt_suppressed Examples.recording
              Scenario.camera Scenario.suppressed Examples.later 3200
              Scenario.webm eq_refl eq_refl Hskip Hfresh)
    as (Hoff & _ & Hmodal & Hpending & _ & Hstored & _).
  split; [exact Hoff|]. split; [exact Hmodal|]. split; [exact Hpending|].
  destruct (Hstored Hlong) as (it & Hit & Hflag & _ & _ & _ & Hin).
  exists it. split; [exact Hit|]. split; [exact Hflag|exact Hin].
Defined.

(** C9 fails as stated: with the prompt suppressed, a flagged stop 499 ms
    after the recording started ends the recording and stores nothing; the
    session lists the three unflagged clips it listed before. *)
Lemma flagged_stop_short_take_counterexample :
  let out :=
    CameraControls.stopRecordingFlagged Examples.recording Examples.started
      Scenario.suppressed Examples.later 699 Scenario.webm in
  CameraControls.hasRecorder Examples.recording = true
  ∧ CameraControls.isRecording Examples.recording = true
  ∧ Preferences.getShouldSkipFlagPrompt (localStorage Scenario.suppressed)
    = true
  ∧ media (db Scenario.suppressed) !! CameraView.uuid Examples.later = None
  ∧ 699 - CameraControls.recordingStartTime Examples.recording = 499
  ∧ CameraControls.isRecording out.1 = false
  ∧ out.2.2 = Scenario.suppressed
  ∧ Db.getMediaItem (db out.2.2) "m-e4" = None
  ∧ MediaItem.trimNeeded <$> Db.getMediaForSession (db out.2.2) "s1"
    = [Some false; Some false; Some false].
Proof. repeat split; vm_compute; reflexivity. Qed.

(** C10, at a save from the editor opened on the middle clip. *)
Lemma performSave_persists_witness :
  TrimView.item Scenario.editor = Some Scenario.item1
  ∧ ∃ it', Db.getMediaItem
             (TrimView.performSave Scenario.editor Scenario.dbA 160).2 "m-2a"
           = Some it'
           ∧ MediaItem.trimNeeded it' = Some false
           ∧ MediaItem.trimEndTime it' = Some (3 # 2)%Q
           ∧ MediaItem.duration it' = Some (3 # 2)%Q.
Proof.
  assert (TrimView.item Scenario.editor = Some Scenario.item1) as Hitem
    by (vm_compute; reflexivity).
  split; [exact Hitem|].
  destruct (performSave_persists Scenario.editor Scenario.dbA 160
              Scenario.item1 Hitem)
    as (_ & it' & Hit & Hflag & Hend & Hdur & _).
  exists it'. split; [exact Hit|]. split; [exact Hflag|].
  split; [exact Hend|exact Hdur].
Defined.

(** * The scenarios of the specification *)

Lemma reachable_dbA : reachable Scenario.dbA.
Proof.
  apply (reachable_step Scenario.db2
           (OpAddMediaItem (Scenario.clip "m-9c" "s1" 4 130) 130)); [|exact I].
  apply (reachable_step Scenario.db1
           (OpAddMediaItem (Scenario.clip "m-2a" "s1" 3 120) 120)); [|exact I].
  apply (reachable_step Scenario.db0
           (OpAddMediaItem (Scenario.clip "m-7f" "s1" 5 110) 110)); [|exact I].
  apply (reachable_step Db.empty (OpCreateSession "S1" "s1" 100)); [|exact I].
  apply reachable_empty.
Qed.

(** The invariant of the reachable stores, at the store of scenario A. *)
Lemma reachable_gap_free_witness :
  reachable Scenario.dbA
  ∧ keyed_by_id Scenario.dbA
  ∧ gap_free Scenario.dbA "s1".
Proof.
  split; [exact reachable_dbA|].
  destruct (reachable_gap_free Scenario.dbA reachable_dbA) as [Hk Hg].
  split; [exact Hk|exact (Hg "s1")].
Defined.

(** Scenario A.  Three clips added to a fresh session are listed in the
    order of their insertion with [order] 0, 1, 2, and the session counts
    three items. *)
Theorem scenario_A :
  Db.getMediaForSession Scenario.dbA "s1"
  = [Scenario.item0; Scenario.item1; Scenario.item2]
  ∧ MediaItem.order <$> Db.getMediaForSession Scenario.dbA "s1" = [0; 1; 2]
  ∧ Session.itemCount <$> Db.getSessions Scenario.dbA = [3].
Proof. repeat split; vm_compute; reflexivity. Qed.

(** Scenario D.  Dragging the last of the three clips to the top and
    dropping it stores the sequence id2, id0, id1 with [order] 0, 1, 2, and
    the session's [lastModified] is the one it had. *)
Theorem scenario_D :
  let d' := (SessionDetail.handleDragEnd Scenario.reordered Scenario.dbA).2.2 in
  MediaItem.id <$> Db.getMediaForSession d' "s1" = ["m-9c"; "m-7f"; "m-2a"]
  ∧ MediaItem.order <$> Db.getMediaForSession d' "s1" = [0; 1; 2]
  ∧ Session.lastModified <$> Db.getSessions d' = [130]
  ∧ Session.lastModified <$> Db.getSessions Scenario.dbA = [130].
Proof. repeat split; vm_compute; reflexivity. Qed.

(** * More of the store *)

Lemma StronglySorted_weaken {A} (R R' : A → A → Prop) l :
  (∀ a b, R a b → R' a b) → StronglySorted R l → StronglySorted R' l.
Proof.
  intros HR. induction 1 as [|x l Hl IH Hx]; constructor; [done|].
  eapply Forall_impl; [exact Hx|]. intros y. apply HR.
Qed.

Lemma getSessions_sorted d :
  StronglySorted (λ a b, Session.lastModified b <= Session.lastModified a)
                 (Db.getSessions d).
Proof.
  unfold Db.getSessions.
  apply (StronglySorted_weaken
           (λ a b, Session.lastModified b - Session.lastModified a <= 0)).
  { intros a b. lia. }
  apply (sort_sorted (λ a b, Session.lastModified b - Session.lastModified a));
    intros; lia.
Qed.

(** The listing of the sessions holds each stored session record once (it is
    a rearrangement of the records of the store), most recently modified
    first. *)
Theorem getSessions_newest_first d :
  Db.getSessions d ≡ₚ (map_to_list (sessions d)).*2
  ∧ StronglySorted (λ a b, Session.lastModified b <= Session.lastModified a)
                   (Db.getSessions d)
  ∧ length (Db.getSessions d) = size (sessions d).
Proof.
  assert (Db.getSessions d ≡ₚ (map_to_list (sessions d)).*2) as Hp.
  { unfold Db.getSessions, IDB.getAll. rewrite sort_perm.
    by rewrite entries_perm. }
  split; [done|]. split; [apply getSessions_sorted|].
  rewrite Hp, length_fmap. apply length_map_to_list.
Qed.

Lemma createSession_resolved d name uuid now :
  sessions d !! uuid = None →
  Db.createSession d name uuid now
  = (Resolved (Session.mk uuid name now now None 0),
     {| sessions := <[uuid := Session.mk uuid name now now None 0]> (sessions d);
        media := media d |}).
Proof. intros Hfresh. unfold Db.createSession, IDB.add. simpl. by rewrite Hfresh. Qed.

Lemma createSession_rejected d name uuid now :
  is_Some (sessions d !! uuid) →
  Db.createSession d name uuid now = (Rejected ConstraintError, d).
Proof. intros [s Hs]. unfold Db.createSession, IDB.add. simpl. by rewrite Hs. Qed.

(** [createSession] with an id that is not in the store resolves with an
    empty session stamped [now] twice, which is stored and listed; no other
    session and no media item changes, and the new session heads the
    listing when [now] is later than every stored [lastModified].  With an
    id already in the store it is rejected and the store is as before. *)
Theorem createSession_adds_empty_session d name uuid now :
  (sessions d !! uuid = None →
   let r := Db.createSession d name uuid now in
   let S := Session.mk uuid name now now None 0 in
   r.1 = Resolved S
   ∧ sessions r.2 !! uuid = Some S
   ∧ S ∈ Db.getSessions r.2
   ∧ (∀ k, k ≠ uuid → sessions r.2 !! k = sessions d !! k)
   ∧ media r.2 = media d
   ∧ ((∀ k S', sessions d !! k = Some S' → Session.lastModified S' < now) →
      head (Db.getSessions r.2) = Some S))
  ∧ (is_Some (sessions d !! uuid) →
     Db.createSession d name uuid now = (Rejected ConstraintError, d)).
Proof.
  split; [|apply createSession_rejected].
  intros Hfresh r S. subst r. rewrite createSession_resolved by done. simpl.
  assert (S ∈ Db.getSessions
                {| sessions := <[uuid := S]> (sessions d); media := media d |})
    as Hin.
  { apply getSessions_elem. exists uuid. simpl. apply lookup_insert_eq. }
  split; [done|]. split; [apply lookup_insert_eq|]. split; [exact Hin|].
  split; [intros k Hk; by apply lookup_insert_ne|]. split; [done|].
  intros Hold.
  pose proof (getSessions_sorted
                {| sessions := <[uuid := S]> (sessions d); media := media d |})
    as Hsorted.
  destruct (Db.getSessions _) as [|h l] eqn:E; [by apply elem_of_nil in Hin|].
  simpl. f_equal. apply elem_of_cons in Hin as [->|Hin]; [done|].
  apply StronglySorted_inv in Hsorted as [_ Hh].
  pose proof (proj1 (Forall_forall _ _) Hh S Hin) as HS. simpl in HS.
  assert (h ∈ Db.getSessions
                {| sessions := <[uuid := S]> (sessions d); media := media d |})
    as Hhin by (rewrite E; left).
  apply getSessions_elem in Hhin as [k Hk]. simpl in Hk.
  rewrite lookup_insert in Hk. case_decide; [by injection Hk|].
  apply Hold in Hk. lia.
Qed.

(** [getMediaForSession] returns the stored items whose [sessionId] is the
    one asked for and no others, as many as the index counts, ordered by
    [order] and, among equal [order]s, by [createdAt]. *)
Theorem getMediaForSession_lists_session d sid :
  (∀ v, v ∈ Db.getMediaForSession d sid
        ↔ ∃ k, media d !! k = Some v ∧ MediaItem.sessionId v = sid)
  ∧ length (Db.getMediaForSession d sid)
    = IDB.index_count MediaItem.sessionId sid (media d)
  ∧ StronglySorted
      (λ a b, MediaItem.order a < MediaItem.order b
              ∨ (MediaItem.order a = MediaItem.order b
                 ∧ MediaItem.createdAt a <= MediaItem.createdAt b))
      (Db.getMediaForSession d sid).
Proof.
  split; [intros v; apply elem_of_getMediaForSession|].
  split; [apply length_getMediaForSession|].
  eapply StronglySorted_weaken; [|apply getMediaForSession_sorted].
  intros a b. unfold Db.compareMedia, JS.or_else. simpl.
  destruct (Z.eqb_spec (MediaItem.order a - MediaItem.order b) 0); lia.
Qed.

(** [updateMediaItem] always resolves, also for an item that is new or whose
    session is missing.  Afterwards [getMediaItem] returns the item, every
    other media record is as before, the owning session (if stored) has
    [lastModified = now] and its other fields, [itemCount] included, as
    before, and no other session record changes. *)
Theorem updateMediaItem_overwrites d item now :
  let r := Db.updateMediaItem d item now in
  r.1 = Resolved tt
  ∧ Db.getMediaItem r.2 (MediaItem.id item) = Some item
  ∧ (∀ k, k ≠ MediaItem.id item → Db.getMediaItem r.2 k = Db.getMediaItem d k)
  ∧ (sessions d !! MediaItem.sessionId item = None → sessions r.2 = sessions d)
  ∧ (∀ S, sessions d !! MediaItem.sessionId item = Some S →
          sessions r.2 = <[Session.id S := Session.touch S now]> (sessions d)
          ∧ Session.lastModified (Session.touch S now) = now
          ∧ Session.itemCount (Session.touch S now) = Session.itemCount S).
Proof.
  intros r. subst r. unfold Db.updateMediaItem, Db.getMediaItem, IDB.put. simpl.
  split; [done|]. split; [apply lookup_insert_eq|].
  split; [intros k Hk; by apply lookup_insert_ne|].
  split; [by intros ->|]. intros S HS. by rewrite HS.
Qed.

(** ** The session aggregate *)

Lemma owned_no_items d sid :
  owned d → sessions d !! sid = None → Db.getMediaForSession d sid = [].
Proof.
  intros Ho Hs.
  destruct (Db.getMediaForSession d sid) as [|v l] eqn:E; [done|].
  assert (v ∈ Db.getMediaForSession d sid) as Hin by (rewrite E; left).
  apply elem_of_getMediaForSession in Hin as (k & Hk & <-).
  apply Ho in Hk as [s Hk]. congruence.
Qed.

Lemma consistent_empty : consistent Db.empty.
Proof.
  split; [apply keyed_by_id_empty|].
  split; intros k v; simpl; by rewrite lookup_empty.
Qed.

Lemma consistent_createSession d name uuid now :
  consistent d → consistent (Db.createSession d name uuid now).2.
Proof.
  intros (Hk & Hc & Ho). split; [by apply keyed_by_id_createSession|].
  destruct (sessions d !! uuid) as [s|] eqn:Hs.
  { rewrite createSession_rejected by eauto. done. }
  rewrite createSession_resolved by done.
  assert (∀ ss k, Db.getMediaForSession {| sessions := ss; media := media d |} k
                  = Db.getMediaForSession d k) as Hsame by done.
  split.
  - intros k S. simpl. rewrite Hsame, lookup_insert. case_decide as E.
    + intros [= <-]. subst k. simpl.
      by rewrite (owned_no_items d uuid Ho Hs).
    + intros HS. by apply Hc.
  - intros k v Hv. simpl in *. apply Ho in Hv as [s Hv].
    rewrite lookup_insert. case_decide; eauto.
Qed.

Lemma consistent_addMediaItem d item now :
  consistent d → is_Some (sessions d !! MediaItem.sessionId item) →
  consistent (Db.addMediaItem d item now).2.
Proof.
  intros (Hk & Hc & Ho) [s Hs]. split; [by apply keyed_by_id_addMediaItem|].
  destruct (media d !! MediaItem.id item) as [v0|] eqn:Hfresh.
  { rewrite addMediaItem_rejected by eauto. done. }
  pose proof (proj1 Hk _ _ Hs) as Hid.
  split.
  - intros k S HS.
    pose proof (addMediaItem_getMediaForSession d item now k Hfresh) as Hp.
    apply Permutation_length in Hp. rewrite Hp. clear Hp.
    rewrite addMediaItem_resolved in HS by done. simpl in HS.
    rewrite Hs, Hid, lookup_insert in HS. case_decide as E.
    + injection HS as <-. subst k. simpl. rewrite (Hc _ _ Hs). lia.
    + simpl. by apply Hc.
  - intros k v. rewrite addMediaItem_resolved by done. simpl.
    rewrite Hs, Hid. intros Hv. rewrite lookup_insert in Hv.
    case_decide as E.
    + injection Hv as <-. unfold appended. simpl.
      rewrite lookup_insert_eq. eauto.
    + apply Ho in Hv as [s' Hv]. rewrite lookup_insert. case_decide; eauto.
Qed.

Lemma consistent_deleteSession d id :
  consistent d → consistent (Db.deleteSession d id).2.
Proof.
  intros (Hk & Hc & Ho). split; [by apply keyed_by_id_deleteSession|]. split.
  - intros k S. simpl. rewrite lookup_delete. case_decide as E; [done|].
    intros HS.
    pose proof (deleteSession_other_session d id k (not_eq_sym E)) as Hp.
    apply Permutation_length in Hp. simpl in Hp. rewrite Hp. by apply Hc.
  - intros k v. rewrite deleteSession_media_lookup.
    destruct (media d !! k) as [v'|] eqn:Hv; [|done].
    case_decide as E; [done|]. intros [= <-].
    apply Ho in Hv as [s Hv]. simpl. rewrite lookup_delete_ne by done. eauto.
Qed.

Lemma consistent_dragEnd d st :
  consistent d →
  arranges d (SessionDetail.sessionId st) (SessionDetail.media st) →
  consistent (SessionDetail.handleDragEnd st d).2.2.
Proof.
  intros (Hk & Hc & Ho) Harr. split; [by apply keyed_by_id_dragEnd|].
  change ((SessionDetail.handleDragEnd st d).2.2)
    with ((Db.updateMediaItems d
             (SessionDetail.updates (SessionDetail.media st))).2).
  split.
  - intros k S HS. change (sessions d !! k = Some S) in HS.
    destruct (decide (k = SessionDetail.sessionId st)) as [->|Hne].
    + rewrite (dragEnd_listing d _ _ Hk Harr), length_updates.
      rewrite (Hc _ _ HS). f_equal.
      destruct Harr as [Hp _]. apply Permutation_length in Hp.
      by rewrite !length_fmap in Hp.
    + pose proof (dragEnd_other_session d _ _ Hk Harr k Hne) as Hp.
      apply Permutation_length in Hp. rewrite Hp. by apply Hc.
  - intros k v Hv. simpl in *.
    apply put_all_lookup_inv in Hv as [[Hin Hid]|[_ Hv]]; [|by apply (Ho k v)].
    rewrite (updates_in_session d _ _ Harr v Hin).
    assert (k ∈ MediaItem.id <$> SessionDetail.media st) as Hkin.
    { rewrite <- updates_ids, <- Hid. by apply list_elem_of_fmap_2. }
    apply (arranges_elem_id d _ _ Hk Harr) in Hkin as (v0 & Hv0 & <-).
    by apply Ho in Hv0.
Qed.

Lemma consistent_updateMediaItem d v v' now :
  consistent d →
  media d !! MediaItem.id v' = Some v →
  MediaItem.sessionId v' = MediaItem.sessionId v →
  MediaItem.order v' = MediaItem.order v →
  consistent (Db.updateMediaItem d v' now).2.
Proof.
  intros (Hk & Hc & Ho) Hv Hsid Hord.
  split; [by apply keyed_by_id_updateMediaItem|].
  assert (∀ k, length (Db.getMediaForSession (Db.updateMediaItem d v' now).2 k)
               = length (Db.getMediaForSession d k)) as Hlen.
  { intros k. pose proof (put_in_place_orders d v v' now k Hv Hsid Hord) as Hp.
    apply Permutation_length in Hp. by rewrite !length_fmap in Hp. }
  split.
  - intros k S HS. rewrite Hlen. simpl in HS.
    destruct (sessions d !! MediaItem.sessionId v') as [s|] eqn:Hs;
      [|by apply Hc].
    unfold IDB.put in HS. rewrite lookup_insert in HS. case_decide as E.
    + injection HS as <-. subst k. simpl.
      rewrite (proj1 Hk _ _ Hs). by apply Hc.
    + by apply Hc.
  - assert (∀ k, is_Some (sessions d !! k) →
                 is_Some (sessions (Db.updateMediaItem d v' now).2 !! k)) as Hs.
    { intros k [s Hs]. simpl.
      destruct (sessions d !! MediaItem.sessionId v') as [s0|]; [|eauto].
      unfold IDB.put. rewrite lookup_insert. case_decide; eauto. }
    intros k x Hx. apply Hs. simpl in Hx. unfold IDB.put in Hx.
    rewrite lookup_insert in Hx. case_decide as E.
    + injection Hx as <-. rewrite Hsid. by apply Ho in Hv.
    + by apply Ho in Hx.
Qed.

Lemma consistent_performSave d st now :
  consistent d → op_ready d (OpPerformSave st now) →
  consistent (TrimView.performSave st d now).2.
Proof.
  unfold TrimView.performSave. simpl.
  destruct (TrimView.item st) as [it|]; [|done].
  intros Hd Hit.
  by apply (consistent_updateMediaItem d it
              (TrimView.updated it (TrimView.endTime st) (TrimView.crop st))).
Qed.

Lemma consistent_step d op :
  consistent d → op_owned d op → consistent (run_op d op).
Proof.
  intros Hd [Hready Hown].
  destruct op as [item now|id|st|name uuid now|st now]; simpl.
  - by apply consistent_addMediaItem.
  - by apply consistent_deleteSession.
  - by apply consistent_dragEnd.
  - by apply consistent_createSession.
  - by apply consistent_performSave.
Qed.

(** In every store built from the empty one by [createSession], by
    [addMediaItem] for a session of the store, by [deleteSession], by the
    drag reorder and by the trim editor's save, each session's [itemCount]
    is the number of items [getMediaForSession] returns for it, and every
    stored item belongs to a stored session. *)
Theorem built_consistent d : built d → consistent d.
Proof.
  induction 1 as [|d op Hd IH Hop]; [apply consistent_empty|].
  by apply consistent_step.
Qed.

(** * Preferences and the flag prompt *)

(** The suppress-prompt preference reads back as it was written (also
    through the settings toggle and a remount of the settings view), is false
    while nothing was written and for any stored text other than "true", and
    writing it leaves every other key of the local storage alone. *)
Theorem preference_round_trip ls b :
  Preferences.getShouldSkipFlagPrompt (Preferences.setShouldSkipFlagPrompt ls b)
  = b
  ∧ SettingsView.skipPrompt
      (SettingsView.mount (SettingsView.handleToggle ls b).2) = b
  ∧ Preferences.getShouldSkipFlagPrompt ∅ = false
  ∧ (∀ v, ls !! Preferences.KEY_SKIP_FLAG_PROMPT = Some v → v ≠ "true" →
          Preferences.getShouldSkipFlagPrompt ls = false)
  ∧ (∀ k, k ≠ Preferences.KEY_SKIP_FLAG_PROMPT →
          Preferences.setShouldSkipFlagPrompt ls b !! k = ls !! k).
Proof.
  assert (Preferences.getShouldSkipFlagPrompt
            (Preferences.setShouldSkipFlagPrompt ls b) = b) as Hrt.
  { unfold Preferences.getShouldSkipFlagPrompt,
      Preferences.setShouldSkipFlagPrompt.
    rewrite lookup_insert_eq. by destruct b. }
  split; [done|]. split; [done|]. split; [done|]. split.
  - intros v Hv Hne. unfold Preferences.getShouldSkipFlagPrompt.
    rewrite Hv. apply bool_decide_eq_false_2. congruence.
  - intros k Hk. unfold Preferences.setShouldSkipFlagPrompt.
    by apply lookup_insert_ne.
Qed.

Lemma saveMedia_resolved st w e blob type flagged :
  media (db w) !! CameraView.uuid e = None →
  CameraView.saveMedia st w e blob type flagged
  = (Some (CameraView.uuid e),
     {| db := (Db.addMediaItem (db w) (captured st e blob type flagged)
                 (CameraView.now_stored e)).2;
        localStorage := localStorage w |})
  ∧ Db.getMediaItem
      (Db.addMediaItem (db w) (captured st e blob type flagged)
         (CameraView.now_stored e)).2
      (CameraView.uuid e)
    = Some (appended (db w) (captured st e blob type flagged)).
Proof.
  intros Hfresh. unfold CameraView.saveMedia.
  change (MediaItem.mk _ _ _ _ _ _ _ _ _ _)
    with (captured st e blob type flagged).
  rewrite (addMediaItem_resolved (db w) (captured st e blob type flagged)
             (CameraView.now_stored e) Hfresh).
  simpl. split; [done|].
  unfold Db.getMediaItem. simpl. by rewrite lookup_insert_eq.
Qed.

Lemma saveMedia_rejected st w e blob type flagged :
  is_Some (media (db w) !! CameraView.uuid e) →
  CameraView.saveMedia st w e blob type flagged = (None, w).
Proof.
  intros Htaken. unfold CameraView.saveMedia.
  by rewrite addMediaItem_rejected.
Qed.

(** While the suppress-prompt preference is not stored as true, the flagged
    stop action at least 500 ms into a recording ends the recording, stores
    nothing and opens the flag modal with the recording pending; "fix now"
    then stores the recording as a flagged video of the camera's session,
    closes the modal and asks for the trim editor on the new id (the id
    drawn being new). *)
Theorem flagged_stop_prompts_then_fix_now recorder st w e now blob :
  CameraControls.hasRecorder recorder = true →
  CameraControls.isRecording recorder = true →
  500 <= now - CameraControls.recordingStartTime recorder →
  Preferences.getShouldSkipFlagPrompt (localStorage w) = false →
  media (db w) !! CameraView.uuid e = None →
  let out := CameraControls.stopRecordingFlagged recorder st w e now blob in
  let r' := CameraView.handleModalFixNow out.2.1 out.2.2 e in
  CameraControls.isRecording out.1 = false
  ∧ out.2.2 = w
  ∧ CameraView.showFlagModal out.2.1 = true
  ∧ CameraView.pendingFlaggedBlob out.2.1 = Some blob
  ∧ CameraView.showFlagModal r'.1 = false
  ∧ CameraView.navigatedToTrim r'.1 = Some (CameraView.uuid e)
  ∧ ∃ it, Db.getMediaItem (db r'.2) (CameraView.uuid e) = Some it
          ∧ MediaItem.trimNeeded it = Some true
          ∧ MediaItem.type it = video
          ∧ MediaItem.blob it = blob
          ∧ MediaItem.sessionId it = CameraView.sessionId st.
Proof.
  intros Hrec Hon Hlong Hask Hfresh out r'. subst out r'.
  unfold CameraControls.stopRecordingFlagged.
  rewrite finishRecording_long by done.
  unfold CameraView.onstop, CameraView.handleFlaggedWorkflow.
  rewrite Hask. simpl. split; [done|]. split; [done|]. split; [done|].
  split; [done|].
  unfold CameraView.handleModalFixNow. simpl.
  destruct (saveMedia_resolved (CameraView.set_modal st true (Some blob))
              w e blob video true Hfresh) as [-> Hget].
  simpl. split; [done|]. split; [done|].
  eexists. split; [exact Hget|]. done.
Qed.

(** "Just flag" on a pending recording stores it as a flagged video, closes
    the modal and clears the pending blob (the id drawn being new).  With
    "don't remind me" ticked it also stores the preference, after which the
    flagged stop action at least 500 ms into a recording, in any camera,
    stores the recording at once as a flagged video of that camera's
    session (its id being new) and leaves the camera's state, the modal
    with it, as it was; without the tick the local storage is as before. *)
Theorem just_flag_and_dont_remind st w e blob :
  CameraView.pendingFlaggedBlob st = Some blob →
  media (db w) !! CameraView.uuid e = None →
  let r := CameraView.handleModalJustFlag st w e in
  CameraView.showFlagModal r.1 = false
  ∧ CameraView.pendingFlaggedBlob r.1 = None
  ∧ (∃ it, Db.getMediaItem (db r.2) (CameraView.uuid e) = Some it
           ∧ MediaItem.trimNeeded it = Some true
           ∧ MediaItem.type it = video
           ∧ MediaItem.blob it = blob)
  ∧ (CameraView.dontRemindFlag st = false → localStorage r.2 = localStorage w)
  ∧ (CameraView.dontRemindFlag st = true →
     Preferences.getShouldSkipFlagPrompt (localStorage r.2) = true
     ∧ (∀ st' e' blob', (CameraView.onstop true st' r.2 e' blob').1 = st')
     ∧ ∀ recorder st' e' now' blob',
         CameraControls.hasRecorder recorder = true →
         CameraControls.isRecording recorder = true →
         500 <= now' - CameraControls.recordingStartTime recorder →
         media (db r.2) !! CameraView.uuid e' = None →
         let out :=
           CameraControls.stopRecordingFlagged recorder st' r.2 e' now' blob' in
         out.2.1 = st'
         ∧ localStorage out.2.2 = localStorage r.2
         ∧ ∃ it', Db.getMediaItem (db out.2.2) (CameraView.uuid e') = Some it'
                  ∧ MediaItem.trimNeeded it' = Some true
                  ∧ MediaItem.type it' = video
                  ∧ MediaItem.blob it' = blob'
                  ∧ MediaItem.sessionId it' = CameraView.sessionId st'
                  ∧ it' ∈ Db.getMediaForSession (db out.2.2)
                            (CameraView.sessionId st')).
Proof.
  intros Hpending Hfresh r. subst r.
  unfold CameraView.handleModalJustFlag. rewrite Hpending.
  set (w1 := if CameraView.dontRemindFlag st then _ else w).
  assert (db w1 = db w) as Hdb by (subst w1; by destruct (CameraView.dontRemindFlag st)).
  assert (media (db w1) !! CameraView.uuid e = None) as Hfresh1
    by (by rewrite Hdb).
  destruct (saveMedia_resolved st w1 e blob video true Hfresh1)
    as [Hsave Hget].
  rewrite Hsave. cbn [fst snd].
  set (w2 := Build_World _ (localStorage w1)).
  split; [done|]. split; [done|]. split.
  { eexists. split; [exact Hget|]. done. }
  split.
  - intros Hd. subst w2 w1. by rewrite Hd.
  - intros Hd.
    assert (Preferences.getShouldSkipFlagPrompt (localStorage w2) = true)
      as Hskip.
    { subst w2 w1. rewrite Hd. cbn [localStorage].
      unfold Preferences.getShouldSkipFlagPrompt,
        Preferences.setShouldSkipFlagPrompt.
      by rewrite lookup_insert_eq. }
    split; [exact Hskip|]. split.
    + intros st' e' blob'.
      unfold CameraView.onstop, CameraView.handleFlaggedWorkflow.
      by rewrite Hskip.
    + intros recorder st' e' now' blob' Hrec Hon Hlong Hfresh'.
      unfold CameraControls.stopRecordingFlagged.
      rewrite finishRecording_long by done.
      by apply onstop_suppressed.
Qed.

(** * The recorder, the photo and the zoom *)

(** A stop (plain or flagged) with no recorder, outside a recording, or less
    than 500 ms after the recording started stores nothing and changes
    neither the camera's state nor the preferences; in the last case the
    recording is over.  A stop at 500 ms or later ends the recording and
    hands the recorded blob to the stop handler. *)
Theorem finishRecording_drops_short_takes isFlagged r st w e now blob :
  let out := CameraControls.finishRecording isFlagged r st w e now blob in
  (CameraControls.hasRecorder r = false ∨ CameraControls.isRecording r = false →
   out = (r, (st, w)))
  ∧ (CameraControls.hasRecorder r = true → CameraControls.isRecording r = true →
     CameraControls.isRecording out.1 = false
     ∧ (now - CameraControls.recordingStartTime r < 500 → out.2 = (st, w))
     ∧ (500 <= now - CameraControls.recordingStartTime r →
        out.2 = CameraView.onstop isFlagged st w e blob)).
Proof.
  intros out. subst out. unfold CameraControls.finishRecording. split.
  - intros [-> | ->]; [done|]. by rewrite andb_false_r.
  - intros -> ->. simpl.
    destruct (Z.ltb_spec (now - CameraControls.recordingStartTime r) 500);
      simpl; (split; [done|]); split; intros; (done || lia).
Qed.

(** A photo is stored as an unflagged item of type photo with duration 0 and
    no trim or crop, at the tail of the camera's session, and its id is
    returned (the id drawn being new); with an id that is already stored
    nothing is saved and no id is returned. *)
Theorem takePhoto_saves_unflagged_photo st w e blob :
  (media (db w) !! CameraView.uuid e = None →
   let r := CameraControls.takePhoto st w e blob in
   r.1 = Some (CameraView.uuid e)
   ∧ localStorage r.2 = localStorage w
   ∧ ∃ it, Db.getMediaItem (db r.2) (CameraView.uuid e) = Some it
           ∧ MediaItem.type it = photo
           ∧ MediaItem.trimNeeded it = Some false
           ∧ MediaItem.duration it = Some 0%Q
           ∧ MediaItem.trimEndTime it = None
           ∧ MediaItem.crop it = None
           ∧ MediaItem.sessionId it = CameraView.sessionId st
           ∧ MediaItem.order it
             = Z.of_nat (length (Db.getMediaForSession (db w)
                                   (CameraView.sessionId st))))
  ∧ (is_Some (media (db w) !! CameraView.uuid e) →
     CameraControls.takePhoto st w e blob = (None, w)).
Proof.
  split; [|apply saveMedia_rejected].
  intros Hfresh r. subst r. unfold CameraControls.takePhoto.
  destruct (saveMedia_resolved st w e blob photo false Hfresh) as [-> Hget].
  simpl. split; [done|]. split; [done|].
  eexists. split; [exact Hget|]. done.
Qed.

(** The zoom level set is never below the track's minimum; when the minimum
    does not exceed the cap it is at most the track's maximum and at most
    5; and a value inside that range is taken as it is. *)
Theorem setZoom_clamps minZoom maxZoom val :
  let z := CameraControls.setZoom minZoom maxZoom val in
  (minZoom <= z)%Q
  ∧ ((minZoom <= maxZoom)%Q → (minZoom <= 5)%Q → (z <= maxZoom)%Q ∧ (z <= 5)%Q)
  ∧ ((minZoom <= val)%Q → (val <= maxZoom)%Q → (val <= 5)%Q → (z == val)%Q).
Proof.
  intros z. subst z. unfold CameraControls.setZoom.
  destruct (Q.max_spec minZoom (Qmin (Qmin maxZoom 5) val)) as [[? E1]|[? E1]];
    destruct (Q.min_spec (Qmin maxZoom 5) val) as [[? E2]|[? E2]];
    destruct (Q.min_spec maxZoom 5) as [[? E3]|[? E3]];
    repeat split; intros; lra.
Qed.


(** * The session detail: dragging, merging, previewing *)

Lemma splice_out_in {A} (l : list A) i x :
  (i ≤ length l)%nat → JS.splice_out i (JS.splice_in i x l) = l.
Proof.
  intros Hi. unfold JS.splice_out, JS.splice_in.
  assert (length (take i l) = i) as Hlen by (by apply length_take_le).
  rewrite take_app_length' by done.
  rewrite cons_middle, app_assoc, drop_app_length'.
  - apply take_drop.
  - rewrite length_app, Hlen. simpl. lia.
Qed.

Lemma splice_in_lookup {A} (l : list A) i x :
  (i ≤ length l)%nat → JS.splice_in i x l !! i = Some x.
Proof.
  intros Hi. unfold JS.splice_in.
  apply list_lookup_middle. by rewrite length_take_le.
Qed.

Lemma length_splice_out {A} (l : list A) i :
  (i < length l)%nat → S (length (JS.splice_out i l)) = length l.
Proof.
  intros Hi. unfold JS.splice_out.
  rewrite length_app, length_take_le, length_drop by lia. lia.
Qed.

(** Dragging row [dragged] over row [index] puts the dragged item at
    position [index] and makes that the dragged position; the list keeps its
    length and its items, and the other items keep their relative order.
    With no drag under way, or over the dragged row itself, nothing
    changes. *)
Theorem handleDragOver_moves_row st index :
  (∀ dragged item,
     SessionDetail.draggedIndex st = Some dragged → dragged ≠ index →
     SessionDetail.media st !! dragged = Some item →
     (index < length (SessionDetail.media st))%nat →
     ∃ st', SessionDetail.handleDragOver st index = Some st'
            ∧ SessionDetail.media st' !! index = Some item
            ∧ SessionDetail.draggedIndex st' = Some index
            ∧ length (SessionDetail.media st') = length (SessionDetail.media st)
            ∧ SessionDetail.media st' ≡ₚ SessionDetail.media st
            ∧ JS.splice_out index (SessionDetail.media st')
              = JS.splice_out dragged (SessionDetail.media st))
  ∧ (SessionDetail.draggedIndex st = None
     ∨ SessionDetail.draggedIndex st = Some index →
     SessionDetail.handleDragOver st index = Some st).
Proof.
  split.
  - intros dragged item Hd Hne Hitem Hindex.
    unfold SessionDetail.handleDragOver.
    rewrite Hd, bool_decide_eq_false_2, Hitem by done.
    eexists. split; [reflexivity|]. simpl.
    pose proof (lookup_lt_Some _ _ _ Hitem) as Hdl.
    pose proof (length_splice_out (SessionDetail.media st) dragged Hdl) as Hlen.
    assert (index ≤ length (JS.splice_out dragged (SessionDetail.media st)))%nat
      as Hi by lia.
    split; [by apply splice_in_lookup|]. split; [done|].
    assert (JS.splice_in index item
              (JS.splice_out dragged (SessionDetail.media st))
            ≡ₚ SessionDetail.media st) as Hp
      by (by rewrite splice_in_perm, splice_out_perm).
    split; [by rewrite Hp|]. split; [exact Hp|].
    by apply splice_out_in.
  - unfold SessionDetail.handleDragOver. intros [-> | ->]; [done|].
    by rewrite bool_decide_eq_true_2.
Qed.

Lemma ended_steps st k :
  SessionDetail.isMerging st = true →
  (SessionDetail.currentMergeIndex st + k
   < length (SessionDetail.mergeQueue st))%nat →
  foldl SessionDetail.dispatch st (replicate k SessionDetail.Ended)
  = SessionDetail.set_merge st true (SessionDetail.mergeQueue st)
      (SessionDetail.currentMergeIndex st + k).
Proof.
  revert st. induction k as [|k IH]; intros st Hm Hk.
  { rewrite Nat.add_0_r. simpl. destruct st. simpl in *. by subst. }
  simpl.
  assert (S (SessionDetail.currentMergeIndex st)
          < length (SessionDetail.mergeQueue st))%nat as Hnext by lia.
  assert (SessionDetail.dispatch st SessionDetail.Ended
          = SessionDetail.set_merge st true (SessionDetail.mergeQueue st)
              (S (SessionDetail.currentMergeIndex st))) as ->.
  { unfold SessionDetail.dispatch, SessionDetail.shown. rewrite Hm.
    destruct (lookup_lt_is_Some_2 (SessionDetail.mergeQueue st)
                (SessionDetail.currentMergeIndex st)) as [c ->]; [lia|].
    unfold SessionDetail.playNextInQueue.
    rewrite bool_decide_eq_true_2 by lia. by rewrite Hm. }
  rewrite IH; simpl; [|done|lia]. f_equal. lia.
Qed.


(** The preview of a clip with a non-zero [trimEndTime] never stays past
    it: a position report at or after the trim end pauses the element and
    sets it back to the trim end, an earlier one leaves the element alone;
    for a clip whose [trimEndTime] is absent or zero, and with no element or
    no previewed item, the handler does nothing. *)
Theorem preview_stops_at_trim_end video item :
  (∀ v e, video = Some v → MediaItem.trimEndTime item = Some e → ¬ (e == 0)%Q →
     ∃ v', Preview.handlePreviewTimeUpdate video (Some item) = Some v'
           ∧ (currentTime v' <= e)%Q
           ∧ ((e <= currentTime v)%Q → v' = {| currentTime := e; paused := true |})
           ∧ ((currentTime v < e)%Q → v' = v))
  ∧ (JS.truthy (MediaItem.trimEndTime item) = false →
     Preview.handlePreviewTimeUpdate video (Some item) = video)
  ∧ Preview.handlePreviewTimeUpdate video None = video
  ∧ Preview.handlePreviewTimeUpdate None (Some item) = None.
Proof.
  split; [|split; [|split]].
  - intros v e -> He Hnz. unfold Preview.handlePreviewTimeUpdate.
    rewrite He, truthy_nonzero by done.
    destruct (Qle_bool e (currentTime v)) eqn:Hle.
    + apply Qle_bool_iff in Hle. eexists. split; [done|]. simpl.
      split; [lra|]. split; [done|]. intros. lra.
    + exists v. split; [done|].
      assert (currentTime v < e)%Q as Hlt.
      { apply Qnot_le_lt. intros H. apply Qle_bool_iff in H. congruence. }
      split; [lra|]. split; [intros; lra|done].
  - intros Hf. unfold Preview.handlePreviewTimeUpdate.
    destruct video; [|done]. by rewrite Hf.
  - unfold Preview.handlePreviewTimeUpdate. by destruct video.
  - done.
Qed.

(** A click on a row opens the trim editor exactly for a video flagged
    [trimNeeded], and the preview for everything else; in particular a
    flagged recording opens the editor, and the same clip once saved from
    the editor opens the preview. *)
Theorem handleMediaClick_routes item :
  (Preview.handleMediaClick item = Preview.OpenTrim (MediaItem.id item)
   ↔ MediaItem.trimNeeded item = Some true ∧ MediaItem.type item = video)
  ∧ (Preview.handleMediaClick item = Preview.OpenPreview item
     ↔ ¬ (MediaItem.trimNeeded item = Some true ∧ MediaItem.type item = video))
  ∧ (∀ st e blob,
       Preview.handleMediaClick (captured st e blob video true)
       = Preview.OpenTrim (CameraView.uuid e))
  ∧ (∀ endTime crop,
       Preview.handleMediaClick (TrimView.updated item endTime crop)
       = Preview.OpenPreview (TrimView.updated item endTime crop)).
Proof.
  unfold Preview.handleMediaClick. repeat split; try done.
  - destruct (MediaItem.trimNeeded item) as [[]|]; [|done..].
    by destruct (MediaItem.type item).
  - destruct (MediaItem.trimNeeded item) as [[]|]; [|done..].
    by destruct (MediaItem.type item).
  - by intros [-> ->].
  - destruct (MediaItem.trimNeeded item) as [[]|];
      destruct (MediaItem.type item); intros H; try done; by intros [? ?].
  - intros H. destruct (MediaItem.trimNeeded item) as [[]|];
      destruct (MediaItem.type item); try done. exfalso. by apply H.
Qed.

(** * The trim editor: cropping and playing *)

(** At a position report of the editor's video: while playing, a position at
    or past the chosen end time pauses the video, sets it back to the end
    time and ends playing; otherwise the video and the playing flag are as
    before.  So whenever the editor is still playing after a report, the
    video is before the end time.  Pressing play at or past the end time
    starts again from 0. *)
Theorem trim_playback_stops_at_end st v :
  TrimEditor.video st = Some v →
  let endTime := TrimView.endTime (TrimEditor.view st) in
  let st' := TrimEditor.handleTimeUpdate st in
  TrimEditor.view st' = TrimEditor.view st
  ∧ TrimEditor.shownTime st' = currentTime v
  ∧ (TrimEditor.isPlaying st = true → (endTime <= currentTime v)%Q →
     TrimEditor.isPlaying st' = false
     ∧ TrimEditor.video st' = Some {| currentTime := endTime; paused := true |})
  ∧ (TrimEditor.isPlaying st = false ∨ (currentTime v < endTime)%Q →
     TrimEditor.isPlaying st' = TrimEditor.isPlaying st
     ∧ TrimEditor.video st' = Some v)
  ∧ (TrimEditor.isPlaying st' = true →
     ∃ v', TrimEditor.video st' = Some v' ∧ (currentTime v' < endTime)%Q)
  ∧ (TrimEditor.isPlaying st = false → (endTime <= currentTime v)%Q →
     TrimEditor.video (TrimEditor.togglePlay st)
     = Some {| currentTime := 0; paused := false |}
     ∧ TrimEditor.isPlaying (TrimEditor.togglePlay st) = true).
Proof.
  intros Hv endTime st'. subst st' endTime.
  unfold TrimEditor.handleTimeUpdate, TrimEditor.togglePlay. rewrite Hv.
  destruct (Qle_bool (TrimView.endTime (TrimEditor.view st)) (currentTime v))
    eqn:Hle.
  - apply Qle_bool_iff in Hle.
    destruct (TrimEditor.isPlaying st) eqn:Hp; simpl.
    + split; [done|]. split; [done|]. split; [done|].
      split; [intros [?|?]; [done|lra]|]. split; done.
    + split; [done|]. split; [done|]. split; [done|].
      split; [done|]. split; [done|]. done.
  - assert (currentTime v < TrimView.endTime (TrimEditor.view st))%Q as Hlt.
    { apply Qnot_le_lt. intros H. apply Qle_bool_iff in H. congruence. }
    simpl. split; [done|]. split; [done|].
    split; [intros _ ?; lra|]. split; [done|].
    split; [intros _; by exists v|]. intros _ ?. lra.
Qed.

(** Saving right after the video's metadata has loaded, without touching
    the slider: an item with a non-zero [trimEndTime] keeps it, and an item
    whose [trimEndTime] is absent or zero is stored with [trimEndTime] and
    [duration] equal to the video's full length.  After a slider change the
    value of the slider is what gets stored. *)
Theorem save_after_load_keeps_trim st d it db now :
  TrimEditor.video st ≠ None →
  TrimView.item (TrimEditor.view st) = Some it →
  let loaded := TrimEditor.handleLoadedMetadata st d in
  let stored s :=
    Db.getMediaItem (TrimView.performSave (TrimEditor.view s) db now).2
      (MediaItem.id it) in
  (∀ e, MediaItem.trimEndTime it = Some e → ¬ (e == 0)%Q →
        MediaItem.trimEndTime <$> stored loaded = Some (Some e)
        ∧ MediaItem.duration <$> stored loaded = Some (Some e))
  ∧ (JS.truthy (MediaItem.trimEndTime it) = false →
     MediaItem.trimEndTime <$> stored loaded = Some (Some d)
     ∧ MediaItem.duration <$> stored loaded = Some (Some d))
  ∧ (∀ val,
       MediaItem.trimEndTime
         <$> stored (TrimEditor.handleSliderChange loaded val)
       = Some (Some val)).
Proof.
  intros Hvideo Hit loaded stored. subst loaded stored.
  destruct (TrimEditor.video st) as [v|] eqn:Hv; [|done]. clear Hvideo.
  assert (∀ s e,
            TrimView.item (TrimEditor.view s) = Some it →
            TrimView.endTime (TrimEditor.view s) = e →
            Db.getMediaItem
              (TrimView.performSave (TrimEditor.view s) db now).2
              (MediaItem.id it)
            = Some (TrimView.updated it e (TrimView.crop (TrimEditor.view s))))
    as Hsave.
  { intros s e Hs <-. unfold TrimView.performSave. rewrite Hs. simpl.
    unfold Db.getMediaItem, IDB.put. simpl. by rewrite lookup_insert_eq. }
  unfold TrimEditor.handleLoadedMetadata. rewrite Hv.
  split; [|split].
  - intros e He Hnz. rewrite (Hsave _ e); [done|done|].
    simpl. unfold TrimEditor.trim_or. rewrite Hit, He.
    by rewrite truthy_nonzero.
  - intros Hf. rewrite (Hsave _ d); [done|done|].
    simpl. unfold TrimEditor.trim_or. rewrite Hit.
    destruct (MediaItem.trimEndTime it) as [e|]; [|done]. by rewrite Hf.
  - intros val. rewrite (Hsave _ val); [done| |];
      unfold TrimEditor.handleSliderChange; simpl; rewrite ?Hv; done.
Qed.

(** Opening the editor on an id that is not stored, or on a photo, loads
    nothing, and a save then writes nothing; opening it on a stored video
    loads that item, with its saved crop if it has one. *)
Theorem editor_loads_videos_only d mediaId st now :
  TrimView.item st = None →
  (Db.getMediaItem d mediaId = None
   ∨ (∃ i, Db.getMediaItem d mediaId = Some i ∧ MediaItem.type i = photo) →
   TrimView.load d mediaId st = st
   ∧ TrimView.performSave (TrimView.load d mediaId st) d now = (st, d))
  ∧ (∀ i, Db.getMediaItem d mediaId = Some i → MediaItem.type i = video →
          TrimView.item (TrimView.load d mediaId st) = Some i
          ∧ TrimView.crop (TrimView.load d mediaId st)
            = default (TrimView.crop st) (MediaItem.crop i)).
Proof.
  intros Hnone. split.
  - intros [Hmissing|(i & Hi & Hphoto)].
    + unfold TrimView.load. rewrite Hmissing.
      unfold TrimView.performSave. by rewrite Hnone.
    + unfold TrimView.load. rewrite Hi, Hphoto.
      unfold TrimView.performSave. by rewrite Hnone.
  - intros i Hi Hvideo. unfold TrimView.load. rewrite Hi, Hvideo. simpl.
    split; [done|]. by destruct (MediaItem.crop i).
Qed.

(** * The session list and the navigation *)

Lemma length_getSessions d : length (Db.getSessions d) = size (sessions d).
Proof.
  unfold Db.getSessions, IDB.getAll.
  rewrite length_sort, length_fmap, entries_perm. apply length_map_to_list.
Qed.

(** In the session list: a delete that is not confirmed changes nothing; a
    confirmed delete leaves the list showing exactly the sessions listed
    before other than the deleted one, read back from the store, in which
    no item of the deleted session is left; a create with a new id ends
    with the new, empty session in the list, one entry longer than the
    store's listing was; a create whose id is taken leaves store and list
    as they were. *)
Theorem session_list_create_and_delete st d :
  (∀ id, SessionList.handleDelete st d id false = (st, d))
  ∧ (∀ id, keyed_by_id d →
       let r := SessionList.handleDelete st d id true in
       SessionList.sessions r.1 = Db.getSessions r.2
       ∧ (∀ s, s ∈ SessionList.sessions r.1
               ↔ s ∈ Db.getSessions d ∧ Session.id s ≠ id)
       ∧ Db.getMediaForSession r.2 id = [])
  ∧ (∀ name uuid now, sessions d !! uuid = None →
       let r := SessionList.handleCreate st d name uuid now in
       SessionList.isCreating r.1 = false
       ∧ Session.mk uuid name now now None 0 ∈ SessionList.sessions r.1
       ∧ length (SessionList.sessions r.1) = S (length (Db.getSessions d)))
  ∧ (∀ name uuid now, is_Some (sessions d !! uuid) →
       SessionList.handleCreate st d name uuid now
       = ({| SessionList.sessions := SessionList.sessions st;
             SessionList.isCreating := false |}, d)).
Proof.
  split; [done|]. split; [|split].
  - intros id Hkeyed r. subst r. unfold SessionList.handleDelete. simpl.
    split; [done|]. split; [|apply deleteSession_getMediaForSession].
    intros s. rewrite !getSessions_elem. simpl. split.
    + intros [k Hk]. rewrite lookup_delete in Hk. case_decide as E; [done|].
      split; [eauto|]. by rewrite (proj1 Hkeyed _ _ Hk).
    + intros [[k Hk] Hne]. exists k. rewrite lookup_delete_ne; [done|].
      by rewrite <- (proj1 Hkeyed _ _ Hk).
  - intros name uuid now Hfresh r. subst r. unfold SessionList.handleCreate.
    rewrite createSession_resolved by done. simpl. split; [done|]. split.
    + apply getSessions_elem. exists uuid. simpl. apply lookup_insert_eq.
    + rewrite !length_getSessions. simpl. by apply map_size_insert_None.
  - intros name uuid now Htaken. unfold SessionList.handleCreate.
    by rewrite createSession_rejected.
Qed.

Lemma step_keeps_session view a sid :
  App.session_of view = Some sid → a ≠ App.Back →
  App.session_of (App.step view a) = Some sid.
Proof. destruct view, a; simpl; intros; by simplify_eq. Qed.

(** Starting in the detail view of a session and never going back, any
    sequence of the callbacks the views offer stays in views of that
    session (its detail view, its camera, its trim editor), and closing
    whatever is open then shows the session's detail view. *)
Theorem navigation_stays_in_session sid (actions : list App.Action) :
  Forall (λ a, a ≠ App.Back) actions →
  let view := foldl App.step (App.session sid) actions in
  App.session_of view = Some sid
  ∧ App.step view App.Close = App.session sid.
Proof.
  intros Hactions view.
  assert (App.session_of view = Some sid) as Hview.
  { subst view. generalize (eq_refl : App.session_of (App.session sid) = Some sid).
    generalize (App.session sid).
    induction Hactions as [|a actions Ha _ IH]; intros v Hv; [done|].
    simpl. by apply IH, step_keeps_session. }
  split; [done|]. destruct view; simpl in *; by simplify_eq.
Qed.

(** * The further statements at concrete inputs *)

Lemma built_dbA : built Scenario.dbA.
Proof.
  assert (∀ d item now, is_Some (sessions d !! MediaItem.sessionId item) →
                        op_owned d (OpAddMediaItem item now)) as Hadd
    by (intros; by split).
  apply (built_step Scenario.db2
           (OpAddMediaItem (Scenario.clip "m-9c" "s1" 4 130) 130));
    [|apply Hadd; vm_compute; eauto].
  apply (built_step Scenario.db1
           (OpAddMediaItem (Scenario.clip "m-2a" "s1" 3 120) 120));
    [|apply Hadd; vm_compute; eauto].
  apply (built_step Scenario.db0
           (OpAddMediaItem (Scenario.clip "m-7f" "s1" 5 110) 110));
    [|apply Hadd; vm_compute; eauto].
  apply (built_step Db.empty (OpCreateSession "S1" "s1" 100)); [|by split].
  apply built_empty.
Qed.

(** The aggregate of the store of scenario A. *)
Lemma built_consistent_witness :
  built Scenario.dbA
  ∧ consistent Scenario.dbA
  ∧ Session.itemCount <$> sessions Scenario.dbA !! "s1" = Some 3
  ∧ length (Db.getMediaForSession Scenario.dbA "s1") = 3%nat.
Proof.
  split; [exact built_dbA|].
  split; [exact (built_consistent Scenario.dbA built_dbA)|].
  split; vm_compute; reflexivity.
Defined.

(** A flagged stop three seconds into a recording while the prompt is not
    suppressed, then "fix now". *)
Lemma flagged_stop_prompts_then_fix_now_witness :
  let out :=
    CameraControls.stopRecordingFlagged Examples.recording Scenario.camera
      Examples.asking Examples.later 3200 Scenario.webm in
  (CameraControls.hasRecorder Examples.recording = true
   ∧ CameraControls.isRecording Examples.recording = true
   ∧ 500 <= 3200 - CameraControls.recordingStartTime Examples.recording
   ∧ Preferences.getShouldSkipFlagPrompt (localStorage Examples.asking) = false
   ∧ media (db Examples.asking) !! CameraView.uuid Examples.later = None)
  ∧ out.2.2 = Examples.asking
  ∧ CameraView.showFlagModal out.2.1 = true
  ∧ CameraView.pendingFlaggedBlob out.2.1 = Some Scenario.webm
  ∧ CameraView.navigatedToTrim
      (CameraView.handleModalFixNow out.2.1 out.2.2 Examples.later).1
    = Some "m-e4".
Proof.
  intros out.
  assert (500 <= 3200 - CameraControls.recordingStartTime Examples.recording)
    as Hlong by (vm_compute; discriminate).
  assert (Preferences.getShouldSkipFlagPrompt (localStorage Examples.asking)
          = false) as Hask by (vm_compute; reflexivity).
  assert (media (db Examples.asking) !! CameraView.uuid Examples.later = None)
    as Hfresh by (vm_compute; reflexivity).
  split; [split; [reflexivity|]; split; [reflexivity|];
          split; [exact Hlong|]; split; [exact Hask|exact Hfresh]|].
  destruct (flagged_stop_prompts_then_fix_now Examples.recording
              Scenario.camera Examples.asking Examples.later 3200
              Scenario.webm eq_refl eq_refl Hlong Hask Hfresh)
    as (_ & Hsame & Hmodal & Hpending & _ & Hnav & _).
  split; [exact Hsame|]. split; [exact Hmodal|].
  split; [exact Hpending|exact Hnav].
Defined.

(** "Just flag" with "don't remind me" ticked, and a flagged stop three
    seconds into the next recording: the new clip "m-b6" is stored flagged
    and no modal opens. *)
Lemma just_flag_and_dont_remind_witness :
  let r :=
    CameraView.handleModalJustFlag Examples.prompted Examples.asking
      Scenario.env in
  let next :=
    {| CameraView.uuid := "m-b6"; CameraView.now_created := 3200;
       CameraView.now_stored := 3201 |} in
  let out :=
    CameraControls.stopRecordingFlagged Examples.recording Scenario.camera
      r.2 next 3200 Scenario.webm in
  (CameraView.pendingFlaggedBlob Examples.prompted = Some Scenario.webm
   ∧ media (db Examples.asking) !! CameraView.uuid Scenario.env = None)
  ∧ CameraView.showFlagModal r.1 = false
  ∧ Preferences.getShouldSkipFlagPrompt (localStorage r.2) = true
  ∧ out.2.1 = Scenario.camera
  ∧ ∃ it, Db.getMediaItem (db out.2.2) "m-b6" = Some it
          ∧ MediaItem.trimNeeded it = Some true.
Proof.
  intros r next out.
  assert (CameraView.pendingFlaggedBlob Examples.prompted = Some Scenario.webm)
    as Hpending by (vm_compute; reflexivity).
  assert (media (db Examples.asking) !! CameraView.uuid Scenario.env = None)
    as Hfresh by (vm_compute; reflexivity).
  split; [split; [exact Hpending|exact Hfresh]|].
  destruct (just_flag_and_dont_remind Examples.prompted Examples.asking
              Scenario.env Scenario.webm Hpending Hfresh)
    as (Hmodal & _ & _ & _ & Hremind).
  split; [exact Hmodal|].
  destruct (Hremind eq_refl) as (Hskip & _ & Hnext).
  split; [exact Hskip|].
  assert (500 <= 3200 - CameraControls.recordingStartTime Examples.recording)
    as Hlong by (vm_compute; discriminate).
  assert (media (db r.2) !! CameraView.uuid next = None) as Hfresh'
    by (vm_compute; reflexivity).
  destruct (Hnext Examples.recording Scenario.camera next 3200 Scenario.webm
              eq_refl eq_refl Hlong Hfresh')
    as (Hst & _ & it & Hit & Hflag & _).
  split; [exact Hst|]. exists it. split; [exact Hit|exact Hflag].
Defined.


(** The editor playing at 2 seconds with the end time at 1.5. *)
Lemma trim_playback_stops_at_end_witness :
  TrimEditor.video Examples.trimming
  = Some {| currentTime := 2; paused := false |}
  ∧ TrimEditor.isPlaying (TrimEditor.handleTimeUpdate Examples.trimming) = false
  ∧ TrimEditor.video (TrimEditor.handleTimeUpdate Examples.trimming)
    = Some {| currentTime := 3 # 2; paused := true |}.
Proof.
  assert (TrimEditor.video Examples.trimming
          = Some {| currentTime := 2; paused := false |}) as Hv
    by (vm_compute; reflexivity).
  split; [exact Hv|].
  destruct (trim_playback_stops_at_end Examples.trimming _ Hv)
    as (_ & _ & Hstop & _).
  apply Hstop; vm_compute; [reflexivity|discriminate].
Defined.

(** The middle clip, not trimmed before, saved as soon as its metadata
    (3 seconds) has loaded. *)
Lemma save_after_load_keeps_trim_witness :
  TrimEditor.video Examples.trimming ≠ None
  ∧ TrimView.item (TrimEditor.view Examples.trimming) = Some Scenario.item1
  ∧ MediaItem.trimEndTime
      <$> Db.getMediaItem
            (TrimView.performSave
               (TrimEditor.view
                  (TrimEditor.handleLoadedMetadata Examples.trimming 3))
               Scenario.dbA 160).2
            (MediaItem.id Scenario.item1)
    = Some (Some 3%Q).
Proof.
  assert (TrimEditor.video Examples.trimming ≠ None) as Hv
    by (vm_compute; discriminate).
  assert (TrimView.item (TrimEditor.view Examples.trimming)
          = Some Scenario.item1) as Hit by (vm_compute; reflexivity).
  split; [exact Hv|]. split; [exact Hit|].
  destruct (save_after_load_keeps_trim Examples.trimming 3 Scenario.item1
              Scenario.dbA 160 Hv Hit) as (_ & Habsent & _).
  apply Habsent. vm_compute. reflexivity.
Defined.

(** The editor opened on an id that is not in the store of scenario A. *)
Lemma editor_loads_videos_only_witness :
  let st := TrimEditor.view (TrimEditor.initial None) in
  TrimView.item st = None
  ∧ Db.getMediaItem Scenario.dbA "m-zz" = None
  ∧ TrimView.performSave (TrimView.load Scenario.dbA "m-zz" st) Scenario.dbA 160
    = (st, Scenario.dbA).
Proof.
  intros st.
  assert (TrimView.item st = None) as Hnone by (vm_compute; reflexivity).
  assert (Db.getMediaItem Scenario.dbA "m-zz" = None) as Hmissing
    by (vm_compute; reflexivity).
  split; [exact Hnone|]. split; [exact Hmissing|].
  exact (proj2 (proj1 (editor_loads_videos_only Scenario.dbA "m-zz" st 160
                         Hnone) (or_introl Hmissing))).
Defined.

(** Camera, fix-now to the editor, save, camera again. *)
Lemma navigation_stays_in_session_witness :
  Forall (λ a, a ≠ App.Back) Examples.tour
  ∧ foldl App.step (App.session "s1") Examples.tour
    = App.camera "s1" App.ModePhoto
  ∧ App.step (foldl App.step (App.session "s1") Examples.tour) App.Close
    = App.session "s1".
Proof.
  assert (Forall (λ a, a ≠ App.Back) Examples.tour) as Htour
    by (repeat constructor; discriminate).
  split; [exact Htour|]. split; [vm_compute; reflexivity|].
  exact (proj2 (navigation_stays_in_session "s1" Examples.tour Htour)).
Defined.

(** * The merge player, one event at a time *)

(** While the merge player shows a clip of its queue, an event of the video
    element (a position report or the end of the media) leaves the queue
    and the list of the view as they are and does one of three things:
    nothing; a move to the next clip, which exists; or, on the last clip,
    the end of the merge.  No clip is skipped and none is shown again. *)
Theorem merge_advances_one_clip_at_a_time st ev :
  SessionDetail.isMerging st = true →
  (SessionDetail.currentMergeIndex st
   < length (SessionDetail.mergeQueue st))%nat →
  let st' := SessionDetail.dispatch st ev in
  SessionDetail.mergeQueue st' = SessionDetail.mergeQueue st
  ∧ SessionDetail.media st' = SessionDetail.media st
  ∧ (st' = st
     ∨ (SessionDetail.isMerging st' = true
        ∧ SessionDetail.currentMergeIndex st'
          = S (SessionDetail.currentMergeIndex st)
        ∧ (SessionDetail.currentMergeIndex st'
           < length (SessionDetail.mergeQueue st'))%nat)
     ∨ (SessionDetail.isMerging st' = false
        ∧ S (SessionDetail.currentMergeIndex st)
          = length (SessionDetail.mergeQueue st))).
Proof.
  intros Hm Hi st'. subst st'.
  assert (let n := SessionDetail.playNextInQueue st in
          SessionDetail.mergeQueue n = SessionDetail.mergeQueue st
          ∧ SessionDetail.media n = SessionDetail.media st
          ∧ ((SessionDetail.isMerging n = true
              ∧ SessionDetail.currentMergeIndex n
                = S (SessionDetail.currentMergeIndex st)
              ∧ (SessionDetail.currentMergeIndex n
                 < length (SessionDetail.mergeQueue n))%nat)
             ∨ (SessionDetail.isMerging n = false
                ∧ S (SessionDetail.currentMergeIndex st)
                  = length (SessionDetail.mergeQueue st)))) as Hnext.
  { unfold SessionDetail.playNextInQueue. case_bool_decide as Hlt; simpl.
    - split; [done|]. split; [done|]. left. rewrite Hm.
      split; [done|]. split; [done|]. lia.
    - split; [done|]. split; [done|]. right. split; [done|]. lia. }
  destruct Hnext as (Hq & Hmedia & Hcases).
  unfold SessionDetail.dispatch, SessionDetail.shown. rewrite Hm.
  destruct (SessionDetail.mergeQueue st !! SessionDetail.currentMergeIndex st)
    as [c|] eqn:Hc; [|by split; [|split; [|left]]].
  destruct ev as [t|].
  - unfold SessionDetail.handleMergeTimeUpdate. rewrite Hc.
    destruct (JS.truthy (MediaItem.trimEndTime c));
      [|by split; [|split; [|left]]].
    destruct (MediaItem.trimEndTime c) as [e|]; [|by split; [|split; [|left]]].
    destruct (Qle_bool e t); [|by split; [|split; [|left]]].
    split; [done|]. split; [done|]. right. exact Hcases.
  - split; [done|]. split; [done|]. right. exact Hcases.
Qed.

(** The first event of the merge of scenario B. *)
Lemma merge_advances_one_clip_at_a_time_witness :
  SessionDetail.isMerging Scenario.merging = true
  ∧ (SessionDetail.currentMergeIndex Scenario.merging
     < length (SessionDetail.mergeQueue Scenario.merging))%nat
  ∧ SessionDetail.mergeQueue
      (SessionDetail.dispatch Scenario.merging SessionDetail.Ended)
    = SessionDetail.mergeQueue Scenario.merging
  ∧ SessionDetail.currentMergeIndex
      (SessionDetail.dispatch Scenario.merging SessionDetail.Ended)
    = 1%nat.
Proof.
  assert (SessionDetail.isMerging Scenario.merging = true) as Hm
    by (vm_compute; reflexivity).
  assert (SessionDetail.currentMergeIndex Scenario.merging
          < length (SessionDetail.mergeQueue Scenario.merging))%nat as Hi
    by (vm_compute; lia).
  split; [exact Hm|]. split; [exact Hi|].
  destruct (merge_advances_one_clip_at_a_time Scenario.merging
              SessionDetail.Ended Hm Hi) as (Hq & _ & _).
  split; [exact Hq|]. vm_compute. reflexivity.
Defined.
